(** * A shallow embedding of the [git] package (git.go)

    The package is a thin layer over the [git] command line: it runs
    sub-commands, captures their text output and classifies it.  Go strings
    are byte sequences and are modelled by [string] (a list of [ascii]
    bytes); a Go slice of strings is a [list string], the nil slice being
    [[]]; a Go [map[string][]string] is a [gmap string (list string)]. *)

From Stdlib Require Import ZArith Ascii String.
From stdpp Require Import gmap strings list fin_maps.

Local Open Scope string_scope.

(** ** Bytes and strings *)

Definition byte_of (n : nat) : ascii := Ascii.ascii_of_nat n.

(** The bytes written ["\n"] and ["\t"] in Go source. *)
Definition NL : ascii := byte_of 10.
Definition TAB : ascii := byte_of 9.

(** [strings.Split(s, sep)] for a one-byte separator, the only way the
    package calls it ([strings.Split(v, "\n")]): the pieces between the
    occurrences of [sep], one more piece than there are occurrences. *)
Fixpoint Split (s : string) (sep : ascii) : list string :=
  match s with
  | EmptyString => [EmptyString]
  | String c s' =>
      if Ascii.eqb c sep then EmptyString :: Split s' sep
      else match Split s' sep with
           | [] => [String c EmptyString]
           | piece :: pieces => String c piece :: pieces
           end
  end.

(** ** Regular expressions

    The fragment of Go's [regexp] syntax that the three patterns of the
    package use.  Without flags [^] and [$] match at the two ends of the
    text only and [.] matches every character but a newline.  Repetition is
    only ever applied to a single-character matcher.  The patterns put
    ASCII literals around their repetitions, so matching byte by byte and
    matching rune by rune agree. *)

Inductive regex : Type :=
| Eps                                   (* the empty pattern *)
| Bol                                   (* ^ *)
| Eol                                   (* $ *)
| Chr (c : ascii)                       (* a literal character *)
| Class (p : ascii -> bool)             (* [...], \w, . *)
| StarC (p : ascii -> bool)             (* x*  (greedy) *)
| PlusC (p : ascii -> bool)             (* x+  (greedy) *)
| Seq (r1 r2 : regex)                   (* r1r2 *)
| Alt (r1 r2 : regex)                   (* r1|r2, r1 preferred *)
| Group (n : nat) (r : regex).          (* the n-th parenthesis *)

(** A pattern written as a sequence of pieces. *)
Definition cat (rs : list regex) : regex := foldr Seq Eps rs.

(** A run of literal characters. *)
Definition Lit (s : string) : regex := cat (map Chr (list_ascii_of_string s)).

Definition one_of (set : string) (c : ascii) : bool :=
  existsb (Ascii.eqb c) (list_ascii_of_string set).

(** [.] *)
Definition dot (c : ascii) : bool := negb (Ascii.eqb c NL).

(** [\w], that is [[0-9A-Za-z_]] *)
Definition word (c : ascii) : bool :=
  let n := Ascii.nat_of_ascii c in
  (Nat.leb 48 n && Nat.leb n 57) || (Nat.leb 65 n && Nat.leb n 90)
  || (Nat.leb 97 n && Nat.leb n 122) || Nat.eqb n 95.

Definition space (c : ascii) : bool := Ascii.eqb c " ".

Fixpoint ngroups (r : regex) : nat :=
  match r with
  | Seq r1 r2 | Alt r1 r2 => ngroups r1 `max` ngroups r2
  | Group n r => n `max` ngroups r
  | _ => 0
  end.

(** Submatches found so far: group number and captured text, the latest
    binding of a group first. *)
Definition captures : Type := list (nat * string).

Fixpoint capture (cs : captures) (n : nat) : string :=
  match cs with
  | [] => EmptyString
  | (i, s) :: cs' => if Nat.eqb i n then s else capture cs' n
  end.

(** The part of [s] that was consumed when [rest] is what remains of it. *)
Definition consumed (s rest : string) : string :=
  substring 0 (String.length s - String.length rest) s.

Section Matcher.
Context {R : Type}.

(** Greedy repetition: the longest run first, giving characters back
    one at a time while what follows fails. *)
Fixpoint star_match (p : ascii -> bool) (s : string)
    (k : string -> option R) : option R :=
  match s with
  | String c s' =>
      if p c then
        match star_match p s' k with
        | Some r => Some r
        | None => k s
        end
      else k s
  | EmptyString => k s
  end.
End Matcher.

(** A backtracking matcher in continuation-passing style.  Go's [regexp]
    returns, among the leftmost matches, the one a backtracking search
    finds first, which is what trying the alternatives in this order
    computes.  [s] is what remains of [text] to be matched, so the matcher
    stands at the start of the text when both have the same length. *)
Fixpoint rmatch (r : regex) (text s : string) (cs : captures)
    (k : string -> captures -> option captures) : option captures :=
  match r with
  | Eps => k s cs
  | Bol => if Nat.eqb (String.length s) (String.length text) then k s cs else None
  | Eol => match s with EmptyString => k s cs | _ => None end
  | Chr c =>
      match s with
      | String c' s' => if Ascii.eqb c' c then k s' cs else None
      | EmptyString => None
      end
  | Class p =>
      match s with
      | String c' s' => if p c' then k s' cs else None
      | EmptyString => None
      end
  | StarC p => star_match p s (fun s' => k s' cs)
  | PlusC p =>
      match s with
      | String c' s' => if p c' then star_match p s' (fun s'' => k s'' cs) else None
      | EmptyString => None
      end
  | Seq r1 r2 => rmatch r1 text s cs (fun s1 cs1 => rmatch r2 text s1 cs1 k)
  | Alt r1 r2 =>
      match rmatch r1 text s cs k with
      | Some res => Some res
      | None => rmatch r2 text s cs k
      end
  | Group n r1 =>
      rmatch r1 text s cs (fun s1 cs1 => k s1 ((n, consumed s s1) :: cs1))
  end.

(** The leftmost match: every start offset in turn, [s] being the text
    from that offset on. *)
Fixpoint search (re : regex) (text s : string) : option captures :=
  match rmatch (Group 0 re) text s [] (fun _ cs => Some cs) with
  | Some cs => Some cs
  | None =>
      match s with
      | EmptyString => None
      | String _ s' => search re text s'
      end
  end.

(** [re.FindStringSubmatch(s)]: the whole match followed by the text of
    each group, or the nil slice when [re] does not match. *)
Definition FindStringSubmatch (re : regex) (s : string) : list string :=
  match search re s s with
  | Some cs => map (capture cs) (seq 0 (S (ngroups re)))
  | None => []
  end.

(** The three patterns, piece by piece as [regexp.Compile] reads them. *)

(** [ReadyRE]: a letter among A, D, M at the start of the line, two
    spaces, the rest of the line. *)
Definition ReadyRE : regex :=
  cat [Bol;                                  (* ^ *)
       Group 1 (Class (one_of "ADM"));       (* ([ADM]) *)
       Lit "  ";                             (* two spaces *)
       Group 2 (StarC dot);                  (* a group around .* *)
       Eol].                                 (* $ *)

(** [NotReadyRE]: a space, a character among ?, A, D, M, a space, the rest
    of the line. *)
Definition NotReadyRE : regex :=
  cat [Bol;                                  (* ^ *)
       Lit " ";                              (* one space *)
       Group 1 (Class (one_of "?ADM"));      (* ([?ADM]) *)
       Lit " ";                              (* one space *)
       Group 2 (StarC dot);                  (* a group around .* *)
       Eol].                                 (* $ *)

(** [remMatch]: optional spaces, a name, optional spaces, anything, a space
    and the direction between parentheses at the end of the line. *)
Definition remMatch : regex :=
  cat [Bol;                                  (* ^ *)
       StarC space;                          (* a space, starred *)
       Group 1 (PlusC word);                 (* (\w+) *)
       StarC space;                          (* a space, starred *)
       Group 2 (StarC dot);                  (* a group around .* *)
       Lit " (";                             (* a space and \( *)
       Group 3 (Alt (Lit "fetch") (Lit "push")); (* (fetch|push) *)
       Lit ")";                              (* \) *)
       Eol].                                 (* $ *)

(** ** Errors, panics and the outside world *)

(** The values a Go [error] of this package can hold: one made by
    [fmt.Errorf], or one handed back by [os/exec] when the command could
    not be run or exited with a failure. *)
Inductive error_value : Type :=
| Errorf (msg : string)
| ExecError (msg : string).

(** A Go [error]; [None] is [nil]. *)
Definition error : Type := option error_value.

(** The run-time panic of a slice access [v[i]] with [len(v) <= i]. *)
Inductive panic_value : Type :=
| IndexOutOfRange (i len : nat).

Inductive result (A : Type) : Type :=
| Done (a : A)
| Panicked (p : panic_value).
Arguments Done {A} a.
Arguments Panicked {A} p.

(** What was asked of the [git] binary, in order: ghost history, kept to
    state which commands a function issues. *)
Inductive call : Type :=
| Output (opts : list string)      (* exec.Command("git", opts...).Output() *)
| RunCmd (opts : list string).     (* utils.RunCmd("git", opts...) *)

(** ** The change record

    [GitFilesStatus] is the [map[string][]string] behind [gs.Ready] and
    [gs.NotReady]; its methods are declared in a file of the package that
    is not part of the sources at hand. *)

(** [r[k]]: a missing key reads as the empty slice. *)
Definition paths (r : gmap string (list string)) (k : string) : list string :=
  default [] (r !! k).

(** Modelled from the spec: the method [init] of [GitFilesStatus] is
    missing.  The kind codes of a record are A, D and M, and also ? for the
    record created with [untracked = true]; a fresh record has no entry
    under any of them. *)
Definition init (untracked : bool) (r : gmap string (list string))
    : gmap string (list string) :=
  let r := <["A" := []]> r in
  let r := <["D" := []]> r in
  let r := <["M" := []]> r in
  if untracked then <["?" := []]> r else r.

(** Modelled from the spec: the method [add] of [GitFilesStatus] is
    missing.  The parsed kind code and path are inserted into the record,
    after the paths already there under that kind. *)
Definition add (kind file : string) (r : gmap string (list string))
    : gmap string (list string) :=
  <[kind := (paths r kind ++ [file])%list]> r.

(** Modelled from the spec: the method [CountTracked] of [GitFilesStatus]
    is missing.  The count of tracked (non-untracked) entries across all
    kinds, that is of the entries whose kind is not ?. *)
Definition CountTracked (r : gmap string (list string)) : nat :=
  map_fold (fun kind files n =>
              if String.eqb kind "?" then n else n + length files) 0 r.

Record Status : Type := mkStatus {
  Ready : gmap string (list string);
  NotReady : gmap string (list string);
  Err : error;
}.

(** [err != nil] *)
Definition failed (err : error) : bool :=
  match err with Some _ => true | None => false end.

Definition is_nil {A : Type} (l : list A) : bool :=
  match l with [] => true | _ => false end.

Section Git.

(** The processes the package starts are outside of it: [exec_Output]
    stands for [exec.Command("git", opts...).Output()] and [utils_RunCmd]
    for [utils.RunCmd("git", opts...)] of the [forjj/utils] package, both
    acting on an unknown world. *)
Variable World : Type.
Variable exec_Output : list string -> World -> (string * error) * World.
Variable utils_RunCmd : list string -> World -> Z * World.

Record State : Type := mkState {
  world : World;
  calls : list call;
}.

(** Computations that act on the world and may panic. *)
Definition M (A : Type) : Type := State -> result A * State.

Definition ret {A : Type} (a : A) : M A := fun st => (Done a, st).

Definition bind {A B : Type} (m : M A) (f : A -> M B) : M B :=
  fun st =>
    match m st with
    | (Done a, st') => f a st'
    | (Panicked p, st') => (Panicked p, st')
    end.

Definition panic {A : Type} (p : panic_value) : M A :=
  fun st => (Panicked p, st).

Notation "'let*' x ':=' m 'in' k" := (bind m (fun x => k))
  (at level 10, x pattern, m at level 100, k at level 200).

(** [v[i]] *)
Definition index (v : list string) (i : nat) : M string :=
  match v !! i with
  | Some x => ret x
  | None => panic (IndexOutOfRange i (length v))
  end.

(** [Do]: the command is logged and run, its exit code returned. *)
Definition Do (opts : list string) : M Z :=
  fun st =>
    let '(rc, w) := utils_RunCmd opts (world st) in
    (Done rc, {| world := w; calls := (calls st ++ [RunCmd opts])%list |}).

(** [Get]: the command is run and its output captured. *)
Definition Get (opts : list string) : M (string * error) :=
  fun st =>
    let '(out, w) := exec_Output opts (world st) in
    (Done out, {| world := w; calls := (calls st ++ [Output opts])%list |}).

(** The body of the loop of [GetStatus], for one line. *)
Definition GetStatus_line (line : string) (gs : Status) : M Status :=
  let* gs :=
    (let m := FindStringSubmatch ReadyRE line in
     if negb (is_nil m) then
       let* m1 := index m 1 in
       let* m2 := index m 2 in
       ret (mkStatus (add m1 m2 (Ready gs)) (NotReady gs) (Err gs))
     else ret gs) in
  (let m := FindStringSubmatch NotReadyRE line in
   if negb (is_nil m) then
     let* m1 := index m 1 in
     let* m2 := index m 2 in
     ret (mkStatus (add m1 m2 (Ready gs)) (NotReady gs) (Err gs))
   else ret gs).

Fixpoint GetStatus_lines (lines : list string) (gs : Status) : M Status :=
  match lines with
  | [] => ret gs
  | line :: rest =>
      let* gs := GetStatus_line line gs in
      GetStatus_lines rest gs
  end.

Definition GetStatus : M Status :=
  let ready := init false ∅ in
  let notReady := init true ∅ in
  let* (s, err) := Get ["status"; "--porcelain"] in
  let gs := mkStatus ready notReady err in
  if failed err || String.eqb s "" then ret gs
  else GetStatus_lines (Split s NL) gs.

Definition Commit (msg : string) (errorIfEmpty : bool) : M error :=
  let* s := GetStatus in
  if Nat.eqb (CountTracked (Ready s)) 0 then
    ret (if errorIfEmpty
         then Some (Errorf "No files to commit. Please check")
         else None)
  else
    let* rc := Do ["commit"; "-m"; msg] in
    if (rc >? 0)%Z then ret (Some (Errorf "Unable to commit"))
    else ret None.

(** The comparison that ends [RemoteStatus]. *)
Definition divergence (local_rev remote_rev base_rev : string) : string :=
  if String.eqb local_rev remote_rev then "="
  else if String.eqb local_rev base_rev then "-1"
  else if String.eqb remote_rev base_rev then "+1"
  else "-1+1".

Definition RemoteStatus (remote : string) : M (string * error) :=
  let* (v, err) := Get ["rev-parse"; "@{0}"] in
  if failed err then ret ("", err) else
  let local_rev := v in
  let* (v, err) := Get ["rev-parse"; remote] in
  if failed err then ret ("", err) else
  let remote_rev := v in
  let* (v, err) := Get ["merge-base"; "@{0}"; remote] in
  if failed err then ret ("", err) else
  let base_rev := v in
  ret (divergence local_rev remote_rev base_rev, None).

Fixpoint RemoteUrl_scan (remote : string) (remotes : list string)
    : M (string * bool * error) :=
  match remotes with
  | [] => ret ("", false, None)
  | aRemote :: rest =>
      let v := FindStringSubmatch remMatch aRemote in
      let* v0 := index v 0 in
      if String.eqb v0 remote then
        let* v1 := index v 1 in
        ret (v1, true, None)
      else RemoteUrl_scan remote rest
  end.

Definition RemoteUrl (remote : string) : M (string * bool * error) :=
  let* (v, err) := Get ["remote"; "-v"] in
  if failed err then ret ("", false, err) else
  let remotes := if String.eqb v "" then [] else Split v NL in
  RemoteUrl_scan remote remotes.

End Git.

Arguments mkState {World} world calls.
Arguments world {World} s.
Arguments calls {World} s.

(** ** Scripted worlds

    A world in which every command has a fixed answer: the captured output
    and error of the commands listed, a failure for any other, and exit
    code 0 for the commands that are only run. *)
Definition script : Type := list (list string * (string * error)).

Fixpoint answer (sc : script) (opts : list string) : string * error :=
  match sc with
  | [] => ("", Some (ExecError "exit status 1"))
  | (o, a) :: sc' => if bool_decide (o = opts) then a else answer sc' opts
  end.

Definition scripted_Output (sc : script) (opts : list string) (w : unit)
    : (string * error) * unit := (answer sc opts, w).

Definition scripted_RunCmd (opts : list string) (w : unit) : Z * unit :=
  (0%Z, w).

Definition start : State unit := mkState tt [].

(** A line as the [git] binary prints it, ended by a newline. *)
Definition endl (s : string) : string := s +:+ String NL "".

Arguments ret {World A} a.
Arguments bind {World A B} m f.
Arguments index {World} v i.

(** ** Notions used to state the facts *)

(** A line holds no newline. *)
Definition no_newline (s : string) : Prop :=
  forallb dot (list_ascii_of_string s) = true.

(** What the loop of [GetStatus] does to the ready record for one line. *)
Definition classify (line : string) (r : gmap string (list string))
    : gmap string (list string) :=
  let r :=
    match FindStringSubmatch ReadyRE line with
    | _ :: kind :: file :: _ => add kind file r
    | _ => r
    end in
  match FindStringSubmatch NotReadyRE line with
  | _ :: kind :: file :: _ => add kind file r
  | _ => r
  end.

(** The four classifications [RemoteStatus] can answer. *)
Definition classifications : list string := ["="; "-1"; "+1"; "-1+1"].







(** Worlds for the commands of [GetStatus], [RemoteStatus] and
    [RemoteUrl]. *)
Definition status_world (out : string) (err : error) : script :=
  [(["status"; "--porcelain"], (out, err))].

Definition revs_world (remote l r b : string) (el er eb : error) : script :=
  [(["rev-parse"; "@{0}"], (l, el));
   (["rev-parse"; remote], (r, er));
   (["merge-base"; "@{0}"; remote], (b, eb))].

Definition remotes_world (out : string) : script :=
  [(["remote"; "-v"], (out, None))].

Definition origin_fetch : string :=
  "origin" +:+ String TAB "https://example.org/repo.git (fetch)".
Definition origin_push : string :=
  "origin" +:+ String TAB "https://example.org/repo.git (push)".

(** ** Branches and remotes

    The listing functions of git.go and what is built on them. *)

Section Listings.

Variable World : Type.
Variable exec_Output : list string -> World -> (string * error) * World.
Variable utils_RunCmd : list string -> World -> Z * World.

Notation "'let*' x ':=' m 'in' k" := (bind m (fun x => k))
  (at level 10, x pattern, m at level 100, k at level 200).

Definition Branches : M World (list string * error) :=
  let* (v, err) := Get World exec_Output ["branch"] in
  if failed err || String.eqb v "" then ret ([], err)
  else ret (Split v NL, None).

Definition RemoteBranches : M World (list string * error) :=
  let* (v, err) := Get World exec_Output ["branch"; "-r"] in
  if failed err || String.eqb v "" then ret ([], err)
  else ret (Split v NL, None).

(** The loop shared by [RemoteBranchExist], [BranchExist] and
    [RemoteExist]: the first item equal to [remote] ends it. *)
Fixpoint range_equal (items : list string) (remote : string) : bool :=
  match items with
  | [] => false
  | item :: rest => if String.eqb item remote then true else range_equal rest remote
  end.

Definition RemoteBranchExist (remote : string) : M World (bool * error) :=
  let* (branches, err) := RemoteBranches in
  if failed err then ret (false, err)
  else ret (range_equal branches remote, None).

Definition BranchExist (remote : string) : M World (bool * error) :=
  let* (branches, err) := Branches in
  if failed err then ret (false, err)
  else ret (range_equal branches remote, None).

Definition RemoteExist (remote : string) : M World bool :=
  let* (v, err) := Get World exec_Output ["remote"] in
  if failed err then ret false
  else
    let remotes := Split v NL in
    ret (range_equal remotes remote).

Definition EnsureRemoteIs (name url : string) : M World error :=
  let* (ru, found, err) := RemoteUrl World exec_Output name in
  if failed err then ret err
  else if (found : bool) then
    if negb (String.eqb ru url) then
      let* _ := Do World utils_RunCmd ["remote"; "set-url"; url] in
      ret None
    else ret None
  else
    let* _ := Do World utils_RunCmd ["remote"; "add"; name; url] in
    ret None.

End Listings.

(** ** Notions used to state further facts *)

(** The entry a status line stands for under [ReadyRE], read directly:
    a letter among A, D, M, two spaces, the path. *)
Definition ready_entry (l : string) : option (string * string) :=
  match l with
  | String X (String s1 (String s2 P)) =>
      if one_of "ADM" X && Ascii.eqb s1 " " && Ascii.eqb s2 " "
      then Some (String X "", P) else None
  | _ => None
  end.

(** The entry a status line stands for under [NotReadyRE], read directly:
    a space, a character among ?, A, D, M, a space, the path. *)
Definition not_ready_entry (l : string) : option (string * string) :=
  match l with
  | String s1 (String Y (String s2 P)) =>
      if Ascii.eqb s1 " " && one_of "?ADM" Y && Ascii.eqb s2 " "
      then Some (String Y "", P) else None
  | _ => None
  end.

(** The slice [FindStringSubmatch] returns for a line that stands for an
    entry. *)
Definition submatch_of (l : string) (e : option (string * string)) : list string :=
  match e with
  | Some (kind, file) => [l; kind; file]
  | None => []
  end.

(** The paths a line contributes under [kind], whichever of the two
    patterns reads it. *)
Definition line_paths (kind l : string) : list string :=
  let pick e :=
    match e with
    | Some (k, file) => if String.eqb k kind then [file] else []
    | None => []
    end in
  (pick (ready_entry l) ++ pick (not_ready_entry l))%list.

(** A line that stands for a change to a tracked file, staged or not. *)
Definition tracked_line (l : string) : bool :=
  match ready_entry l, not_ready_entry l with
  | Some _, _ => true
  | None, Some (k, _) => negb (String.eqb k "?")
  | None, None => false
  end.

(** The answer of [RemoteStatus] seen from the other side. *)
Definition mirrored (code : string) : string :=
  if String.eqb code "-1" then "+1"
  else if String.eqb code "+1" then "-1"
  else code.

(** A string made of word characters only, as a remote name is. *)
Definition all_word (s : string) : bool :=
  forallb word (list_ascii_of_string s).

(** What [git branch] prints for two branches, the second checked out. *)
Definition git_branch_output : string :=
  endl "  develop" +:+ endl "* master".

(** * Facts *)

(** ** Strings *)

Lemma substring_whole (s : string) : substring 0 (String.length s) s = s.
Proof. induction s as [|c s IH]; simpl; [reflexivity | now rewrite IH]. Qed.

Lemma consumed_all (s : string) : consumed s "" = s.
Proof. unfold consumed. simpl. rewrite Nat.sub_0_r. apply substring_whole. Qed.

Lemma consumed_one (c : ascii) (s : string) : consumed (String c s) s = String c "".
Proof.
  unfold consumed.
  replace (String.length (String c s) - String.length s) with 1 by (simpl; lia).
  simpl. now destruct s.
Qed.

Lemma Split_not_nil (s : string) (sep : ascii) : Split s sep <> [].
Proof.
  destruct s as [|c s]; simpl; [discriminate |].
  destruct (Ascii.eqb c sep); [discriminate |].
  destruct (Split s sep); discriminate.
Qed.

(** No piece of [Split s sep] holds the separator. *)
Lemma Split_piece (s : string) (sep : ascii) (piece : string) :
  piece ∈ Split s sep ->
  forallb (fun c => negb (Ascii.eqb c sep)) (list_ascii_of_string piece) = true.
Proof.
  revert piece. induction s as [|c s IH]; simpl; intros piece Hin.
  - apply list_elem_of_singleton in Hin. now subst.
  - destruct (Ascii.eqb c sep) eqn:Hc.
    + apply elem_of_cons in Hin as [-> | Hin]; [reflexivity | now apply IH].
    + destruct (Split s sep) as [|p ps] eqn:Hs.
      * apply list_elem_of_singleton in Hin. subst. simpl. now rewrite Hc.
      * apply elem_of_cons in Hin as [-> | Hin].
        -- simpl. rewrite Hc. simpl. apply IH. left.
        -- apply IH. now right.
Qed.

Lemma Split_line_no_newline (s line : string) :
  line ∈ Split s NL -> no_newline line.
Proof. intros Hin. apply (Split_piece _ _ _ Hin). Qed.

(** ** The matcher *)

Lemma star_match_all {R : Type} (p : ascii -> bool) (s : string)
    (k : string -> option R) :
  forallb p (list_ascii_of_string s) = true ->
  is_Some (k "") ->
  star_match p s k = k "".
Proof.
  intros Hall Hk. induction s as [|c s IH]; simpl in *; [reflexivity |].
  apply andb_true_iff in Hall as [Hc Hall]. rewrite Hc, (IH Hall).
  now destruct Hk as [r ->].
Qed.

(** A pattern that starts with [^] matches at offset 0 or not at all. *)
Lemma search_anchored_tail (r : regex) (text s : string) :
  String.length s < String.length text ->
  search (Seq Bol r) text s = None.
Proof.
  induction s as [|c s IH]; intros Hlen; cbn [search rmatch].
  - destruct (Nat.eqb_spec (String.length "") (String.length text)) as [E|_];
      [rewrite <- E in Hlen; lia | reflexivity].
  - destruct (Nat.eqb_spec (String.length (String c s)) (String.length text))
      as [E|_]; [rewrite <- E in Hlen; lia |].
    apply IH. simpl in Hlen. lia.
Qed.

Lemma search_anchored (r : regex) (text : string) :
  search (Seq Bol r) text text =
  rmatch r text text [] (fun s1 cs1 => Some ((0, consumed text s1) :: cs1)).
Proof.
  destruct text as [|c s]; cbn [search rmatch]; rewrite Nat.eqb_refl.
  - now destruct (rmatch r "" "" [] _).
  - destruct (rmatch r (String c s) (String c s) [] _); [reflexivity |].
    apply search_anchored_tail. simpl. lia.
Qed.

(** Whatever the matcher returns was returned by its continuation. *)
Lemma star_match_post {R : Type} (Q : R -> Prop) (p : ascii -> bool)
    (s : string) (k : string -> option R) (res : R) :
  star_match p s k = Some res ->
  (forall s1 res', k s1 = Some res' -> Q res') ->
  Q res.
Proof.
  intros Hm Hk. induction s as [|c s IH]; simpl in Hm; [now apply (Hk "") |].
  destruct (p c); [| now apply (Hk (String c s))].
  destruct (star_match p s k) as [r|].
  - injection Hm as ->. now apply IH.
  - now apply (Hk (String c s)).
Qed.

Lemma rmatch_post (Q : captures -> Prop) (r : regex) (text s : string)
    (cs : captures) (k : string -> captures -> option captures)
    (res : captures) :
  rmatch r text s cs k = Some res ->
  (forall s1 cs1 res', k s1 cs1 = Some res' -> Q res') ->
  Q res.
Proof.
  revert s cs k res.
  induction r as [| | |c|p|p|p|r1 IH1 r2 IH2|r1 IH1 r2 IH2|n r1 IH1];
    intros s cs k res Hm Hk; cbn [rmatch] in Hm.
  - eauto.
  - destruct (Nat.eqb _ _); [eauto | discriminate].
  - destruct s; [eauto | discriminate].
  - destruct s as [|c' s']; [discriminate |].
    destruct (Ascii.eqb c' c); [eauto | discriminate].
  - destruct s as [|c' s']; [discriminate |].
    destruct (p c'); [eauto | discriminate].
  - apply (star_match_post Q _ _ _ _ Hm). eauto.
  - destruct s as [|c' s']; [discriminate |].
    destruct (p c'); [| discriminate].
    apply (star_match_post Q _ _ _ _ Hm). eauto.
  - apply (IH1 _ _ _ _ Hm). intros s1 cs1 res' H1. apply (IH2 _ _ _ _ H1). eauto.
  - destruct (rmatch r1 text s cs k) eqn:E1.
    + injection Hm as ->. eauto.
    + eauto.
  - apply (IH1 _ _ _ _ Hm). eauto.
Qed.

Lemma ReadyRE_ready_line (X : ascii) (P : string) :
  one_of "ADM" X = true -> no_newline P ->
  FindStringSubmatch ReadyRE (String X ("  " +:+ P)) =
  [String X ("  " +:+ P); String X ""; P].
Proof.
  intros HX HP. unfold FindStringSubmatch, ReadyRE.
  change ("  " +:+ P) with (String " " (String " " P)).
  cbn [cat foldr]. rewrite search_anchored.
  cbn [rmatch Lit cat foldr map list_ascii_of_string].
  rewrite HX. cbn [Ascii.eqb Bool.eqb].
  rewrite star_match_all by (assumption || eexists; reflexivity).
  rewrite consumed_one, !consumed_all. reflexivity.
Qed.

Lemma NotReadyRE_not_ready_line (Y : ascii) (P : string) :
  one_of "?ADM" Y = true -> no_newline P ->
  FindStringSubmatch NotReadyRE (String " " (String Y (" " +:+ P))) =
  [String " " (String Y (" " +:+ P)); String Y ""; P].
Proof.
  intros HY HP. unfold FindStringSubmatch, NotReadyRE.
  change (" " +:+ P) with (String " " P).
  cbn [cat foldr]. rewrite search_anchored.
  cbn [rmatch Lit cat foldr map list_ascii_of_string].
  cbn [Ascii.eqb Bool.eqb]. rewrite HY. cbn [Ascii.eqb Bool.eqb].
  rewrite star_match_all by (assumption || eexists; reflexivity).
  rewrite consumed_one, !consumed_all. reflexivity.
Qed.

(** The two patterns exclude each other on the first character. *)
Lemma NotReadyRE_first (c : ascii) (s : string) :
  Ascii.eqb c " " = false -> FindStringSubmatch NotReadyRE (String c s) = [].
Proof.
  intros Hc. unfold FindStringSubmatch, NotReadyRE.
  cbn [cat foldr]. rewrite search_anchored.
  cbn [rmatch Lit cat foldr map list_ascii_of_string].
  now rewrite Hc.
Qed.

Lemma ReadyRE_first (c : ascii) (s : string) :
  one_of "ADM" c = false -> FindStringSubmatch ReadyRE (String c s) = [].
Proof.
  intros Hc. unfold FindStringSubmatch, ReadyRE.
  cbn [cat foldr]. rewrite search_anchored.
  cbn [rmatch Lit cat foldr map list_ascii_of_string].
  now rewrite Hc.
Qed.

Lemma one_of_ADM_not_space (X : ascii) :
  one_of "ADM" X = true -> Ascii.eqb X " " = false.
Proof.
  destruct (Ascii.eqb_spec X " ") as [-> |]; [discriminate | reflexivity].
Qed.

(** A match of a pattern with two groups is a slice of three strings. *)
Lemma FindStringSubmatch_shape (re : regex) (s : string) :
  ngroups re = 2 ->
  FindStringSubmatch re s = [] \/
  exists whole g1 g2, FindStringSubmatch re s = [whole; g1; g2].
Proof.
  intros Hn. unfold FindStringSubmatch. destruct (search re s s) as [cs|].
  - right. rewrite Hn. simpl. eauto.
  - now left.
Qed.

(** A sequence of pieces that ends with [$] only matches up to the end of
    the text. *)
Lemma rmatch_cat_Eol (Q : captures -> Prop) (rs : list regex) (text s : string)
    (cs : captures) (k : string -> captures -> option captures)
    (res : captures) :
  rmatch (cat (rs ++ [Eol])) text s cs k = Some res ->
  (forall cs1 res', k "" cs1 = Some res' -> Q res') ->
  Q res.
Proof.
  revert s cs res. induction rs as [|r rs IH]; intros s cs res Hm Hk.
  - cbn in Hm. destruct s; [eauto | discriminate].
  - change (cat ((r :: rs) ++ [Eol])) with (Seq r (cat (rs ++ [Eol]))) in Hm.
    cbn [rmatch] in Hm. apply (rmatch_post Q _ _ _ _ _ _ Hm).
    intros s1 cs1 res' H1. now apply (IH _ _ _ H1).
Qed.

(** [remMatch] is anchored at both ends: what it matches is the whole
    line, followed by the name, the URL and the direction. *)
Lemma remMatch_whole (l : string) :
  FindStringSubmatch remMatch l = [] \/
  exists name url dir, FindStringSubmatch remMatch l = [l; name; url; dir].
Proof.
  unfold FindStringSubmatch, remMatch. cbn [cat foldr]. rewrite search_anchored.
  destruct (rmatch _ l l [] _) as [cs|] eqn:E; [right | now left].
  assert (H0 : capture cs 0 = l).
  { apply (rmatch_cat_Eol (fun cs => capture cs 0 = l)
             [StarC space; Group 1 (PlusC word); StarC space;
              Group 2 (StarC dot); Lit " (";
              Group 3 (Alt (Lit "fetch") (Lit "push")); Lit ")"]
             _ _ _ _ _ E).
    intros cs1 res' [= <-]. cbn [capture Nat.eqb]. apply consumed_all. }
  cbn [ngroups Nat.max seq map]. rewrite H0. eauto.
Qed.

Lemma remMatch_empty : FindStringSubmatch remMatch "" = [].
Proof. reflexivity. Qed.

Lemma Split_line (s : string) (sep : ascii) :
  Split (s +:+ String sep "") sep = (Split s sep ++ [""])%list.
Proof.
  induction s as [|c s IH]; simpl.
  - now rewrite Ascii.eqb_refl.
  - destruct (Ascii.eqb c sep); rewrite IH; [reflexivity |].
    destruct (Split s sep) eqn:E; [now apply Split_not_nil in E | reflexivity].
Qed.

(** ** The change record *)

Lemma paths_init (untracked : bool) (k : string) : paths (init untracked ∅) k = [].
Proof.
  unfold paths, init.
  destruct untracked;
    repeat (rewrite lookup_insert; case_decide; [reflexivity |]);
    now rewrite lookup_empty.
Qed.

Lemma paths_add_same (kind file : string) (r : gmap string (list string)) :
  paths (add kind file r) kind = (paths r kind ++ [file])%list.
Proof. unfold add. unfold paths at 1. now rewrite lookup_insert_eq. Qed.

Lemma paths_add_other (kind file k : string) (r : gmap string (list string)) :
  kind <> k -> paths (add kind file r) k = paths r k.
Proof. intros Hne. unfold add. unfold paths at 1 3. now rewrite lookup_insert_ne. Qed.

(** [add] only ever appends. *)
Lemma paths_add_keeps (kind file k p : string) (r : gmap string (list string)) :
  p ∈ paths r k -> p ∈ paths (add kind file r) k.
Proof.
  intros Hin. destruct (decide (kind = k)) as [-> | Hne].
  - rewrite paths_add_same. apply elem_of_app. now left.
  - now rewrite paths_add_other.
Qed.

Lemma paths_add_new (kind file : string) (r : gmap string (list string)) :
  file ∈ paths (add kind file r) kind.
Proof. rewrite paths_add_same. apply elem_of_app. right. left. Qed.

Lemma CountTracked_init : CountTracked (init false ∅) = 0.
Proof. reflexivity. Qed.

Lemma classify_keeps (line k p : string) (r : gmap string (list string)) :
  p ∈ paths r k -> p ∈ paths (classify line r) k.
Proof.
  intros Hin. unfold classify.
  destruct (FindStringSubmatch NotReadyRE line) as [|? [|? [|? ?]]];
  destruct (FindStringSubmatch ReadyRE line) as [|? [|? [|? ?]]];
  auto using paths_add_keeps.
Qed.

Lemma classify_all_keeps (lines : list string) (k p : string)
    (r : gmap string (list string)) :
  p ∈ paths r k -> p ∈ paths (foldl (fun r line => classify line r) r lines) k.
Proof.
  revert r. induction lines as [|l lines IH]; intros r Hin; simpl; [assumption |].
  apply IH. now apply classify_keeps.
Qed.

Lemma classify_all_In (lines : list string) (line k p : string)
    (r : gmap string (list string)) :
  line ∈ lines ->
  (forall r', p ∈ paths (classify line r') k) ->
  p ∈ paths (foldl (fun r line => classify line r) r lines) k.
Proof.
  intros Hin Hline. revert r.
  induction lines as [|l lines IH]; intros r; [now apply elem_of_nil in Hin |].
  simpl. apply elem_of_cons in Hin as [<- | Hin].
  - apply classify_all_keeps, Hline.
  - now apply IH.
Qed.

Section GitFacts.

Variable World : Type.
Variable exec_Output : list string -> World -> (string * error) * World.
Variable utils_RunCmd : list string -> World -> Z * World.

(** ** [GetStatus] *)

Lemma GetStatus_line_eq (line : string) (gs : Status) (st : State World) :
  GetStatus_line World line gs st =
  (Done (mkStatus (classify line (Ready gs)) (NotReady gs) (Err gs)), st).
Proof.
  unfold GetStatus_line, classify, bind.
  destruct (FindStringSubmatch_shape ReadyRE line eq_refl)
    as [-> | (w1 & k1 & p1 & ->)];
  destruct (FindStringSubmatch_shape NotReadyRE line eq_refl)
    as [-> | (w2 & k2 & p2 & ->)];
  destruct gs; reflexivity.
Qed.

Lemma GetStatus_lines_eq (lines : list string) (gs : Status) (st : State World) :
  GetStatus_lines World lines gs st =
  (Done (mkStatus (foldl (fun r line => classify line r) (Ready gs) lines)
                  (NotReady gs) (Err gs)), st).
Proof.
  revert gs. induction lines as [|l lines IH]; intros gs; simpl.
  - now destruct gs.
  - unfold bind. rewrite GetStatus_line_eq. now rewrite IH.
Qed.

(** [GetStatus] always returns: it asks for the status once, never
    panics, and leaves the not-ready record as [init] made it. *)
Lemma GetStatus_eq (st : State World) (s : string) (err : error) (w : World) :
  exec_Output ["status"; "--porcelain"] (world st) = ((s, err), w) ->
  GetStatus World exec_Output st =
  (Done (mkStatus
           (if failed err || String.eqb s "" then init false ∅
            else foldl (fun r line => classify line r) (init false ∅)
                       (Split s NL))
           (init true ∅) err),
   mkState w (calls st ++ [Output ["status"; "--porcelain"]])).
Proof.
  intros Hout. unfold GetStatus, bind, Get. rewrite Hout.
  destruct (failed err || String.eqb s ""); [reflexivity |].
  now rewrite GetStatus_lines_eq.
Qed.

Lemma GetStatus_total (st : State World) :
  exists gs st', GetStatus World exec_Output st = (Done gs, st').
Proof.
  destruct (exec_Output ["status"; "--porcelain"] (world st)) as [[s err] w] eqn:E.
  rewrite (GetStatus_eq _ _ _ _ E). eauto.
Qed.

Lemma one_of_elem (set : list ascii) (c : ascii) :
  c ∈ set -> existsb (Ascii.eqb c) set = true.
Proof.
  intros Hin. apply existsb_exists. exists c. split.
  - now apply list_elem_of_In.
  - apply Ascii.eqb_refl.
Qed.

Lemma line_not_empty (s : string) (c : ascii) (rest : string) :
  String c rest ∈ Split s NL -> String.eqb s "" = false.
Proof.
  intros Hin. destruct s; [| reflexivity].
  simpl in Hin. apply list_elem_of_singleton in Hin. discriminate.
Qed.

(** C3: a line made of a letter X among A, D, M, two spaces and a path
    puts the path under kind X in the ready record of [GetStatus], and
    under no kind of the not-ready record. *)
Theorem GetStatus_ready_line (st : State World) (s : string) (w : World)
    (X : ascii) (PATH : string) :
  exec_Output ["status"; "--porcelain"] (world st) = ((s, None), w) ->
  X ∈ ["A"; "D"; "M"]%char ->
  String X ("  " +:+ PATH) ∈ Split s NL ->
  exists gs st',
    GetStatus World exec_Output st = (Done gs, st') /\
    PATH ∈ paths (Ready gs) (String X "") /\
    forall kind, PATH ∉ paths (NotReady gs) kind.
Proof.
  intros Hout HX Hin.
  rewrite (GetStatus_eq _ _ _ _ Hout).
  rewrite (line_not_empty _ _ _ Hin). simpl failed. cbn [orb].
  eexists _, _. split; [reflexivity |]. cbn [Ready NotReady]. split.
  - pose proof (Split_line_no_newline _ _ Hin) as Hnl.
    unfold no_newline in Hnl. simpl in Hnl.
    apply andb_true_iff in Hnl as [_ Hnl].
    apply (classify_all_In _ _ _ _ _ Hin). intros r'. unfold classify.
    rewrite ReadyRE_ready_line by (assumption || now apply (one_of_elem ["A"; "D"; "M"]%char)).
    rewrite NotReadyRE_first
      by (apply one_of_ADM_not_space; now apply (one_of_elem ["A"; "D"; "M"]%char)).
    apply paths_add_new.
  - intros kind. rewrite paths_init. apply not_elem_of_nil.
Qed.

(** C1: what [GetStatus] does with a line made of a space, a character Y
    among ?, A, D, M, a space and a path: the path is put under kind Y in
    the READY record, and the not-ready record has nothing under Y. *)
Theorem GetStatus_not_ready_line (st : State World) (s : string) (w : World)
    (Y : ascii) (PATH : string) :
  exec_Output ["status"; "--porcelain"] (world st) = ((s, None), w) ->
  Y ∈ ["?"; "A"; "D"; "M"]%char ->
  String " " (String Y (" " +:+ PATH)) ∈ Split s NL ->
  exists gs st',
    GetStatus World exec_Output st = (Done gs, st') /\
    PATH ∈ paths (Ready gs) (String Y "") /\
    paths (NotReady gs) (String Y "") = [].
Proof.
  intros Hout HY Hin.
  rewrite (GetStatus_eq _ _ _ _ Hout).
  rewrite (line_not_empty _ _ _ Hin). simpl failed. cbn [orb].
  eexists _, _. split; [reflexivity |]. cbn [Ready NotReady]. split.
  - pose proof (Split_line_no_newline _ _ Hin) as Hnl.
    unfold no_newline in Hnl. simpl in Hnl.
    apply andb_true_iff in Hnl as [_ Hnl].
    apply (classify_all_In _ _ _ _ _ Hin). intros r'. unfold classify.
    rewrite ReadyRE_first by reflexivity.
    rewrite NotReadyRE_not_ready_line
      by (assumption || now apply (one_of_elem ["?"; "A"; "D"; "M"]%char)).
    apply paths_add_new.
  - apply paths_init.
Qed.

(** ** [RemoteStatus] *)

Lemma divergence_cases (l r b : string) :
  divergence l r b =
  if decide (l = r) then "="
  else if decide (l = b) then "-1"
  else if decide (r = b) then "+1"
  else "-1+1".
Proof.
  unfold divergence.
  destruct (String.eqb_spec l r), (String.eqb_spec l b), (String.eqb_spec r b);
    repeat case_decide; congruence.
Qed.

(** C4: once the three revisions are resolved, [RemoteStatus] answers
    "=" when local and remote are equal (so when all three are), else
    "-1" when local equals base, else "+1" when remote equals base, else
    "-1+1" (so when the three differ pairwise): four checks in this
    order, the first that holds decides. *)
Theorem RemoteStatus_divergence (remote : string) (st : State World)
    (l r b : string) (w1 w2 w3 : World) :
  exec_Output ["rev-parse"; "@{0}"] (world st) = ((l, None), w1) ->
  exec_Output ["rev-parse"; remote] w1 = ((r, None), w2) ->
  exec_Output ["merge-base"; "@{0}"; remote] w2 = ((b, None), w3) ->
  exists code st',
    RemoteStatus World exec_Output remote st = (Done (code, None), st') /\
    code = (if decide (l = r) then "="
            else if decide (l = b) then "-1"
            else if decide (r = b) then "+1"
            else "-1+1") /\
    (l = r -> r = b -> code = "=") /\
    (l = b -> l <> r -> code = "-1") /\
    (r = b -> l <> r -> code = "+1") /\
    (l <> r -> l <> b -> r <> b -> code = "-1+1").
Proof.
  intros H1 H2 H3. unfold RemoteStatus, bind, Get.
  rewrite H1. cbn [failed world]. rewrite H2. cbn [failed world].
  rewrite H3. cbn [failed world]. unfold ret.
  eexists _, _. split; [reflexivity |].
  rewrite divergence_cases.
  repeat split; intros; repeat case_decide; congruence.
Qed.

(** C5: when one of the three resolutions fails (the local revision, or
    after it the remote one, or after both the merge base), [RemoteStatus]
    returns the empty string with that error, which is none of the four
    classifications. *)
Theorem RemoteStatus_failure (remote : string) (st : State World)
    (e : error_value) :
  let o1 := exec_Output ["rev-parse"; "@{0}"] (world st) in
  let o2 := exec_Output ["rev-parse"; remote] (snd o1) in
  let o3 := exec_Output ["merge-base"; "@{0}"; remote] (snd o2) in
  snd (fst o1) = Some e \/
  (snd (fst o1) = None /\ snd (fst o2) = Some e) \/
  (snd (fst o1) = None /\ snd (fst o2) = None /\ snd (fst o3) = Some e) ->
  exists st',
    RemoteStatus World exec_Output remote st = (Done ("", Some e), st') /\
    "" ∉ classifications.
Proof.
  intros o1 o2 o3 H. unfold RemoteStatus, bind, Get.
  fold o1. destruct o1 as [[v1 e1] w1] eqn:E1. cbn [fst snd] in *.
  assert (Hno : "" ∉ classifications)
    by (unfold classifications; intros Hin;
        repeat (apply elem_of_cons in Hin as [Hin | Hin]; [discriminate |]);
        now apply elem_of_nil in Hin).
  destruct H as [-> | [[-> H] | [-> H]]].
  - cbn. eauto.
  - cbn [failed world]. fold o2. destruct o2 as [[v2 e2] w2].
    cbn [fst snd] in *. subst e2. cbn. eauto.
  - cbn [failed world]. fold o2. destruct o2 as [[v2 e2] w2] eqn:E2.
    cbn [fst snd] in *. destruct H as [-> H]. cbn [failed world].
    fold o3. destruct o3 as [[v3 e3] w3]. cbn [fst snd] in *. subst e3.
    cbn. eauto.
Qed.

(** ** [Commit] *)

(** [GetStatus] asks for the status and issues nothing else. *)
Lemma GetStatus_calls (st st' : State World) (gs : Status) :
  GetStatus World exec_Output st = (Done gs, st') ->
  calls st' = (calls st ++ [Output ["status"; "--porcelain"]])%list.
Proof.
  destruct (exec_Output ["status"; "--porcelain"] (world st)) as [[s err] w] eqn:E.
  rewrite (GetStatus_eq _ _ _ _ E). now intros [= _ <-].
Qed.

(** C7: when the ready record of the status has no tracked entry,
    [Commit] with [errorIfEmpty = true] returns the error
    "No files to commit. Please check", [Commit] with
    [errorIfEmpty = false] returns nil, and in both cases the only command
    issued is the status query: the commit command is not run. *)
Theorem Commit_nothing_to_commit (msg : string) (st st1 : State World)
    (gs : Status) :
  GetStatus World exec_Output st = (Done gs, st1) ->
  CountTracked (Ready gs) = 0 ->
  Commit World exec_Output utils_RunCmd msg true st =
    (Done (Some (Errorf "No files to commit. Please check")), st1) /\
  Commit World exec_Output utils_RunCmd msg false st = (Done None, st1) /\
  calls st1 = (calls st ++ [Output ["status"; "--porcelain"]])%list /\
  forall opts, RunCmd opts ∈ calls st1 -> RunCmd opts ∈ calls st.
Proof.
  intros Hgs H0. unfold Commit, bind. rewrite Hgs, H0. cbn [Nat.eqb].
  repeat split; [now apply GetStatus_calls with gs |].
  intros opts. rewrite (GetStatus_calls _ _ _ Hgs).
  intros [Hin | Hin]%elem_of_app; [assumption |].
  apply list_elem_of_singleton in Hin. discriminate.
Qed.

(** C8: what [Commit] does when the status query itself fails with an
    error [e]: the error is dropped, and [Commit] answers "No files to
    commit. Please check" under [errorIfEmpty = true] and nil (success)
    under [errorIfEmpty = false]. *)
Theorem Commit_status_failure (msg out : string) (e : error_value)
    (st : State World) (w : World) :
  exec_Output ["status"; "--porcelain"] (world st) = ((out, Some e), w) ->
  let st1 := mkState w (calls st ++ [Output ["status"; "--porcelain"]]) in
  Commit World exec_Output utils_RunCmd msg true st =
    (Done (Some (Errorf "No files to commit. Please check")), st1) /\
  Commit World exec_Output utils_RunCmd msg false st = (Done None, st1).
Proof.
  intros Hout st1. unfold Commit, bind.
  rewrite (GetStatus_eq _ _ _ _ Hout). cbn [failed orb Ready].
  rewrite CountTracked_init. now split.
Qed.

(** ** [RemoteUrl] *)

(** One turn of the loop of [RemoteUrl]: a line the pattern does not match
    makes [v[0]] panic; a matched line is compared as a whole with the
    request, and its name is what a hit returns. *)
Lemma RemoteUrl_scan_cons (remote l : string) (rest : list string)
    (st : State World) :
  (FindStringSubmatch remMatch l = [] /\
   RemoteUrl_scan World remote (l :: rest) st
     = (Panicked (IndexOutOfRange 0 0), st)) \/
  (exists name url dir,
     FindStringSubmatch remMatch l = [l; name; url; dir] /\
     RemoteUrl_scan World remote (l :: rest) st
       = if String.eqb l remote then (Done (name, true, None), st)
         else RemoteUrl_scan World remote rest st).
Proof.
  destruct (remMatch_whole l) as [E | (name & url & dir & E)]; [left | right].
  - split; [assumption |]. cbn [RemoteUrl_scan]. now rewrite E.
  - exists name, url, dir. split; [assumption |].
    cbn [RemoteUrl_scan]. rewrite E. unfold bind, index. cbn.
    now destruct (String.eqb l remote).
Qed.

Lemma RemoteUrl_scan_panics (remote : string) (lines : list string)
    (st : State World) :
  remote ∉ lines ->
  (exists l, l ∈ lines /\ FindStringSubmatch remMatch l = []) ->
  RemoteUrl_scan World remote lines st = (Panicked (IndexOutOfRange 0 0), st).
Proof.
  intros Hnot (l0 & Hin & Hno).
  induction lines as [|l lines IH]; [now apply elem_of_nil in Hin |].
  apply not_elem_of_cons in Hnot as [Hne Hnot].
  destruct (RemoteUrl_scan_cons remote l lines st)
    as [[_ ->] | (name & url & dir & E & ->)]; [reflexivity |].
  destruct (String.eqb_spec l remote) as [-> | _]; [contradiction |].
  apply IH; [assumption |].
  apply elem_of_cons in Hin as [-> | Hin]; [| assumption].
  rewrite Hno in E. discriminate.
Qed.

(** [RemoteUrl] answers found only when the request is a whole line of
    the listing, and what it then returns is the name on that line. *)
Lemma RemoteUrl_scan_found (remote : string) (lines : list string)
    (st st' : State World) (u : string) (e : error) :
  RemoteUrl_scan World remote lines st = (Done (u, true, e), st') ->
  remote ∈ lines /\
  exists url dir, FindStringSubmatch remMatch remote = [remote; u; url; dir].
Proof.
  induction lines as [|l lines IH]; [discriminate |].
  destruct (RemoteUrl_scan_cons remote l lines st)
    as [[_ ->] | (name & url & dir & E & ->)]; [discriminate |].
  destruct (String.eqb_spec l remote) as [-> | _].
  - intros [= <- <- <-]. split; [left | eauto].
  - intros H. destruct (IH H) as [Hin Hm]. split; [now right | assumption].
Qed.

(** C10: when [git remote -v] prints a listing ended by a newline, as it
    does, and no line of it is equal to the request, [RemoteUrl] panics:
    the text after the last newline is an empty line, the pattern does not
    match it, and [v[0]] is read from the nil slice. *)
Theorem RemoteUrl_panics (remote v : string) (st : State World) (w : World) :
  exec_Output ["remote"; "-v"] (world st) = ((endl v, None), w) ->
  remote ∉ Split (endl v) NL ->
  RemoteUrl World exec_Output remote st =
  (Panicked (IndexOutOfRange 0 0),
   mkState w (calls st ++ [Output ["remote"; "-v"]])).
Proof.
  intros Hout Hnot. unfold RemoteUrl, bind, Get. rewrite Hout. cbn [failed].
  replace (String.eqb (endl v) "") with false by now destruct v.
  apply RemoteUrl_scan_panics; [assumption |].
  exists "". split; [| apply remMatch_empty].
  unfold endl. rewrite Split_line. apply elem_of_app. right. left.
Qed.

End GitFacts.

(** ** The comparison of [RemoteStatus] and surrounding whitespace *)















(** ** Concrete runs *)

Lemma GetStatus_not_ready_line_witness :
  exists gs st',
    GetStatus unit (scripted_Output (status_world " ? newfile.txt" None)) start
      = (Done gs, st') /\
    "newfile.txt" ∈ paths (Ready gs) "?" /\
    paths (NotReady gs) "?" = [].
Proof.
  apply (GetStatus_not_ready_line unit _ start " ? newfile.txt" tt "?"%char
           "newfile.txt").
  - reflexivity.
  - apply list_elem_of_In. simpl. tauto.
  - apply list_elem_of_In. simpl. tauto.
Defined.

Lemma GetStatus_ready_line_witness :
  exists gs st',
    GetStatus unit
      (scripted_Output
         (status_world (endl "M  path/to/file" +:+ endl " ? notes.txt") None))
      start = (Done gs, st') /\
    "path/to/file" ∈ paths (Ready gs) "M" /\
    forall kind, "path/to/file" ∉ paths (NotReady gs) kind.
Proof.
  apply (GetStatus_ready_line unit _ start
           (endl "M  path/to/file" +:+ endl " ? notes.txt") tt "M"%char
           "path/to/file").
  - reflexivity.
  - apply list_elem_of_In. simpl. tauto.
  - apply list_elem_of_In. simpl. tauto.
Defined.

Lemma RemoteStatus_divergence_witness :
  exists code st',
    RemoteStatus unit
      (scripted_Output
         (revs_world "origin/master" (endl "4f2a") (endl "9c1d") (endl "4f2a")
            None None None))
      "origin/master" start = (Done (code, None), st') /\
    code = "-1".
Proof.
  destruct (RemoteStatus_divergence unit
              (scripted_Output
                 (revs_world "origin/master" (endl "4f2a") (endl "9c1d")
                    (endl "4f2a") None None None))
              "origin/master" start (endl "4f2a") (endl "9c1d") (endl "4f2a")
              tt tt tt eq_refl eq_refl eq_refl)
    as (code & st' & Hrun & Hcode & _).
  exists code, st'. split; [exact Hrun | exact Hcode].
Defined.

Lemma RemoteStatus_failure_witness :
  exists st',
    RemoteStatus unit
      (scripted_Output
         (revs_world "origin/gone" (endl "4f2a") ""  (endl "4f2a")
            None (Some (ExecError "exit status 128")) None))
      "origin/gone" start
      = (Done ("", Some (ExecError "exit status 128")), st') /\
    "" ∉ classifications.
Proof.
  apply (RemoteStatus_failure unit
           (scripted_Output
              (revs_world "origin/gone" (endl "4f2a") "" (endl "4f2a")
                 None (Some (ExecError "exit status 128")) None))
           "origin/gone" start (ExecError "exit status 128")).
  right. left. split; reflexivity.
Defined.

Lemma Commit_nothing_to_commit_witness :
  Commit unit (scripted_Output (status_world "" None)) scripted_RunCmd
    "first commit" true start
    = (Done (Some (Errorf "No files to commit. Please check")),
       mkState tt [Output ["status"; "--porcelain"]]) /\
  Commit unit (scripted_Output (status_world "" None)) scripted_RunCmd
    "first commit" false start
    = (Done None, mkState tt [Output ["status"; "--porcelain"]]).
Proof.
  destruct (Commit_nothing_to_commit unit
              (scripted_Output (status_world "" None)) scripted_RunCmd
              "first commit" start
              (mkState tt [Output ["status"; "--porcelain"]])
              (mkStatus (init false ∅) (init true ∅) None)
              eq_refl eq_refl) as (Ht & Hf & _).
  split; [exact Ht | exact Hf].
Defined.

Lemma Commit_status_failure_witness :
  Commit unit
    (scripted_Output (status_world "" (Some (ExecError "exit status 128"))))
    scripted_RunCmd "first commit" true start
    = (Done (Some (Errorf "No files to commit. Please check")),
       mkState tt [Output ["status"; "--porcelain"]]) /\
  Commit unit
    (scripted_Output (status_world "" (Some (ExecError "exit status 128"))))
    scripted_RunCmd "first commit" false start
    = (Done None, mkState tt [Output ["status"; "--porcelain"]]).
Proof.
  apply (Commit_status_failure unit
           (scripted_Output
              (status_world "" (Some (ExecError "exit status 128"))))
           scripted_RunCmd "first commit" "" (ExecError "exit status 128")
           start tt).
  reflexivity.
Defined.


(** C9: on a listing whose only line names the remote origin, [RemoteUrl]
    asked for origin answers not found: it compares the request with the
    whole matched line.  Asked for that whole line, it answers found, and
    returns the name of the remote, not its URL. *)
Theorem RemoteUrl_compares_whole_match :
  FindStringSubmatch remMatch origin_fetch =
    [origin_fetch; "origin"; String TAB "https://example.org/repo.git"; "fetch"] /\
  RemoteUrl unit (scripted_Output (remotes_world origin_fetch)) "origin" start
    = (Done ("", false, None), mkState tt [Output ["remote"; "-v"]]) /\
  RemoteUrl unit (scripted_Output (remotes_world origin_fetch)) origin_fetch start
    = (Done ("origin", true, None), mkState tt [Output ["remote"; "-v"]]).
Proof. repeat split; reflexivity. Qed.

Lemma RemoteUrl_panics_witness :
  Split (endl (origin_fetch +:+ String NL origin_push)) NL
    = [origin_fetch; origin_push; ""] /\
  RemoteUrl unit
    (scripted_Output
       (remotes_world (endl (origin_fetch +:+ String NL origin_push))))
    "origin" start
    = (Panicked (IndexOutOfRange 0 0), mkState tt [Output ["remote"; "-v"]]).
Proof.
  split; [reflexivity |].
  apply (RemoteUrl_panics unit
           (scripted_Output
              (remotes_world (endl (origin_fetch +:+ String NL origin_push))))
           "origin" (origin_fetch +:+ String NL origin_push) start tt).
  - reflexivity.
  - intros Hin. apply list_elem_of_In in Hin. vm_compute in Hin.
    repeat (destruct Hin as [Hin | Hin]; [discriminate Hin |]). exact Hin.
Defined.

(** * Further facts *)

(** ** The two status patterns, read directly *)

Lemma no_newline_cons (c : ascii) (s : string) :
  no_newline (String c s) -> no_newline s.
Proof. unfold no_newline. simpl. now intros [_ H]%andb_true_iff. Qed.

(** On a line without newline, [ReadyRE] matches exactly when the line
    is a letter among A, D, M, two spaces and a rest, and then returns the
    line, the letter and the rest. *)
Lemma ReadyRE_submatch (l : string) :
  no_newline l ->
  FindStringSubmatch ReadyRE l = submatch_of l (ready_entry l).
Proof.
  intros Hnl. unfold FindStringSubmatch, ReadyRE.
  cbn [cat foldr]. rewrite search_anchored.
  destruct l as [|X l]; [reflexivity |].
  destruct l as [|s1 l];
    [cbn [rmatch Lit cat foldr map list_ascii_of_string ready_entry];
     now destruct (one_of "ADM" X) |].
  destruct l as [|s2 P];
    cbn [rmatch Lit cat foldr map list_ascii_of_string ready_entry].
  - destruct (one_of "ADM" X), (Ascii.eqb s1 " "); reflexivity.
  - destruct (one_of "ADM" X), (Ascii.eqb s1 " "), (Ascii.eqb s2 " ");
      try reflexivity.
    cbn [andb submatch_of].
    do 3 apply no_newline_cons in Hnl.
    rewrite star_match_all by (assumption || eexists; reflexivity).
    rewrite consumed_one, !consumed_all. reflexivity.
Qed.

(** X1: on a line without newline, [ReadyRE] matches exactly when the line
    is a letter among A, D, M, two spaces and a rest, and then returns the
    line, the letter and the rest. *)
Theorem ReadyRE_reads (l : string) :
  no_newline l ->
  FindStringSubmatch ReadyRE l = submatch_of l (ready_entry l).
Proof. exact (ReadyRE_submatch l). Qed.

(** The same reading for [NotReadyRE]. *)
Lemma NotReadyRE_submatch (l : string) :
  no_newline l ->
  FindStringSubmatch NotReadyRE l = submatch_of l (not_ready_entry l).
Proof.
  intros Hnl. unfold FindStringSubmatch, NotReadyRE.
  cbn [cat foldr]. rewrite search_anchored.
  destruct l as [|s1 l]; [reflexivity |].
  destruct l as [|Y l];
    [cbn [rmatch Lit cat foldr map list_ascii_of_string not_ready_entry];
     now destruct (Ascii.eqb s1 " ") |].
  destruct l as [|s2 P];
    cbn [rmatch Lit cat foldr map list_ascii_of_string not_ready_entry].
  - destruct (Ascii.eqb s1 " "), (one_of "?ADM" Y); reflexivity.
  - destruct (Ascii.eqb s1 " "), (one_of "?ADM" Y), (Ascii.eqb s2 " ");
      try reflexivity.
    cbn [andb submatch_of].
    do 3 apply no_newline_cons in Hnl.
    rewrite star_match_all by (assumption || eexists; reflexivity).
    rewrite consumed_one, !consumed_all. reflexivity.
Qed.

(** X2: on a line without newline, [NotReadyRE] matches exactly when the
    line is a space, a character among ?, A, D, M, a space and a rest, and
    then returns the line, the character and the rest. *)
Theorem NotReadyRE_reads (l : string) :
  no_newline l ->
  FindStringSubmatch NotReadyRE l = submatch_of l (not_ready_entry l).
Proof. exact (NotReadyRE_submatch l). Qed.

(** X3: no string is matched by both patterns, so the two tests of the
    loop of [GetStatus], made one after the other on every line, add at
    most one entry for a line. *)
Theorem status_patterns_exclusive (l : string) :
  FindStringSubmatch ReadyRE l = [] \/ FindStringSubmatch NotReadyRE l = [].
Proof.
  destruct l as [|c s]; [now left |].
  destruct (one_of "ADM" c) eqn:Hc.
  - right. apply NotReadyRE_first. now apply one_of_ADM_not_space.
  - left. now apply ReadyRE_first.
Qed.

(** ** The records of [GetStatus] *)

Lemma classify_paths (l kind : string) (r : gmap string (list string)) :
  no_newline l ->
  paths (classify l r) kind = (paths r kind ++ line_paths kind l)%list.
Proof.
  intros Hnl. unfold classify, line_paths.
  rewrite (ReadyRE_submatch l Hnl), (NotReadyRE_submatch l Hnl).
  destruct (ready_entry l) as [[k1 p1]|], (not_ready_entry l) as [[k2 p2]|];
    cbn [submatch_of];
    repeat match goal with
      | |- context [String.eqb ?a kind] =>
          destruct (String.eqb_spec a kind) as [-> | ?]
      end;
    rewrite ?paths_add_same, ?paths_add_other by assumption;
    rewrite ?paths_add_same, ?paths_add_other by assumption;
    rewrite ?app_nil_r, <- ?app_assoc; reflexivity.
Qed.

Lemma classify_all_paths (lines : list string) (kind : string)
    (r : gmap string (list string)) :
  Forall no_newline lines ->
  paths (foldl (fun r l => classify l r) r lines) kind =
  (paths r kind ++ flat_map (line_paths kind) lines)%list.
Proof.
  intros Hall. revert r.
  induction Hall as [|l lines Hl _ IH]; intros r; simpl.
  - now rewrite app_nil_r.
  - rewrite IH, (classify_paths _ _ _ Hl). now rewrite <- app_assoc.
Qed.

Lemma Split_lines_no_newline (s : string) : Forall no_newline (Split s NL).
Proof. apply Forall_forall. intros l. apply Split_line_no_newline. Qed.

(** The tracked entries of a record are counted to 0 exactly when it has
    no path under any kind but ?. *)
Lemma CountTracked_zero (r : gmap string (list string)) :
  CountTracked r = 0 <-> forall kind, kind <> "?" -> paths r kind = [].
Proof.
  unfold CountTracked, paths.
  apply (map_fold_weak_ind
           (fun n (m : gmap string (list string)) =>
              n = 0 <-> forall kind, kind <> "?" -> default [] (m !! kind) = [])).
  - split; [| reflexivity]. intros _ kind _. now rewrite lookup_empty.
  - intros i x m n Hi IH. destruct (String.eqb_spec i "?") as [-> | Hne].
    + rewrite IH. split; intros H kind Hk.
      * rewrite lookup_insert_ne by congruence. now apply H.
      * specialize (H kind Hk). now rewrite lookup_insert_ne in H by congruence.
    + split.
      * intros Hn kind Hk. destruct (decide (i = kind)) as [<- | Hik].
        -- rewrite lookup_insert_eq. simpl. destruct x; [reflexivity | simpl in Hn; lia].
        -- rewrite lookup_insert_ne by assumption. apply IH; [lia | assumption].
      * intros H. assert (Hx : x = []).
        { specialize (H i Hne). now rewrite lookup_insert_eq in H. }
        subst x. simpl. rewrite Nat.add_0_r. apply IH. intros kind Hk.
        destruct (decide (i = kind)) as [<- | Hik]; [now rewrite Hi |].
        specialize (H kind Hk). now rewrite lookup_insert_ne in H by assumption.
Qed.

Lemma ready_entry_kind (l kind file : string) :
  ready_entry l = Some (kind, file) -> kind <> "?".
Proof.
  destruct l as [|X [|s1 [|s2 P]]]; try discriminate. cbn [ready_entry].
  destruct (one_of "ADM" X && Ascii.eqb s1 " " && Ascii.eqb s2 " ") eqn:E;
    [| discriminate].
  apply andb_true_iff in E as [[HX _]%andb_true_iff _].
  intros [= <- _] [= ->]. discriminate HX.
Qed.

(** A line contributes a path under a kind other than ? exactly when it is
    a tracked line. *)
Lemma tracked_line_paths (l : string) :
  tracked_line l = false <-> forall kind, kind <> "?" -> line_paths kind l = [].
Proof.
  unfold tracked_line, line_paths.
  destruct (ready_entry l) as [[k1 p1]|] eqn:E1.
  - split; [discriminate |]. intros H.
    specialize (H k1 (ready_entry_kind _ _ _ E1)).
    rewrite String.eqb_refl in H. discriminate.
  - destruct (not_ready_entry l) as [[k2 p2]|]; [| easy].
    destruct (String.eqb_spec k2 "?") as [-> | Hne]; cbn [negb app].
    + split; [| reflexivity]. intros _ kind Hk.
      now destruct (String.eqb_spec "?" kind) as [<- |].
    + split; [discriminate |]. intros H. specialize (H k2 Hne).
      rewrite String.eqb_refl in H. discriminate.
Qed.

Lemma no_tracked_line (lines : list string) :
  existsb tracked_line lines = false <->
  forall kind, kind <> "?" -> flat_map (line_paths kind) lines = [].
Proof.
  induction lines as [|l lines IH]; simpl; [easy |].
  rewrite orb_false_iff, IH, tracked_line_paths. split.
  - intros [Hl Hls] kind Hk. now rewrite (Hl kind Hk), (Hls kind Hk).
  - intros H. split; intros kind Hk; specialize (H kind Hk);
      apply app_eq_nil in H; tauto.
Qed.

Section MoreGitFacts.

Variable World : Type.
Variable exec_Output : list string -> World -> (string * error) * World.
Variable utils_RunCmd : list string -> World -> Z * World.

(** X4: when the status command fails or prints nothing, [GetStatus]
    parses nothing: both records are without any path, also when output
    came with the error, and [Err] is the error of the command. *)
Theorem GetStatus_nothing_parsed (st : State World) (s : string) (err : error)
    (w : World) :
  exec_Output ["status"; "--porcelain"] (world st) = ((s, err), w) ->
  err <> None \/ s = "" ->
  exists gs,
    GetStatus World exec_Output st =
      (Done gs, mkState w (calls st ++ [Output ["status"; "--porcelain"]])) /\
    Err gs = err /\
    forall kind, paths (Ready gs) kind = [] /\ paths (NotReady gs) kind = [].
Proof.
  intros Hout Hcase. rewrite (GetStatus_eq World exec_Output _ _ _ _ Hout).
  eexists. split; [reflexivity |]. cbn [Err Ready NotReady].
  split; [reflexivity |]. intros kind.
  replace (failed err || String.eqb s "") with true.
  - split; apply paths_init.
  - destruct Hcase as [Hne | ->]; [| now rewrite orb_true_r].
    destruct err; [reflexivity | contradiction].
Qed.

(** The ready record, kind by kind, from the lines of the status. *)
Lemma GetStatus_paths (st : State World) (s : string) (w : World) :
  exec_Output ["status"; "--porcelain"] (world st) = ((s, None), w) ->
  exists gs,
    GetStatus World exec_Output st =
      (Done gs, mkState w (calls st ++ [Output ["status"; "--porcelain"]])) /\
    forall kind,
      paths (Ready gs) kind = flat_map (line_paths kind) (Split s NL).
Proof.
  intros Hout. rewrite (GetStatus_eq World exec_Output _ _ _ _ Hout).
  eexists. split; [reflexivity |]. cbn [Ready failed orb]. intros kind.
  destruct (String.eqb_spec s "") as [-> | _].
  - now rewrite paths_init.
  - rewrite classify_all_paths by apply Split_lines_no_newline.
    now rewrite paths_init.
Qed.

(** X5: when the status command succeeds, the ready record lists under
    each kind the paths of the lines that carry this kind, staged lines and
    unstaged lines alike, in the order of the lines; a line that neither
    pattern reads adds nothing. *)
Theorem GetStatus_ready_paths (st : State World) (s : string) (w : World) :
  exec_Output ["status"; "--porcelain"] (world st) = ((s, None), w) ->
  exists gs,
    GetStatus World exec_Output st =
      (Done gs, mkState w (calls st ++ [Output ["status"; "--porcelain"]])) /\
    forall kind,
      paths (Ready gs) kind = flat_map (line_paths kind) (Split s NL).
Proof. exact (GetStatus_paths st s w). Qed.

(** X6: whatever the status command answers, [GetStatus] returns a
    snapshot, without panic and after this one command, and the not-ready
    record of the snapshot is without any path. *)
Theorem GetStatus_not_ready_empty (st : State World) :
  exists gs st',
    GetStatus World exec_Output st = (Done gs, st') /\
    calls st' = (calls st ++ [Output ["status"; "--porcelain"]])%list /\
    forall kind, paths (NotReady gs) kind = [].
Proof.
  destruct (exec_Output ["status"; "--porcelain"] (world st)) as [[s err] w] eqn:E.
  rewrite (GetStatus_eq World exec_Output _ _ _ _ E). eexists _, _.
  split; [reflexivity |]. split; [reflexivity |]. intros kind. apply paths_init.
Qed.

(** ** [Commit], when there is something to commit *)

Lemma Commit_commits (msg : string) (errorIfEmpty : bool)
    (st st1 : State World) (gs : Status) (rc : Z) (w2 : World) :
  GetStatus World exec_Output st = (Done gs, st1) ->
  CountTracked (Ready gs) <> 0 ->
  utils_RunCmd ["commit"; "-m"; msg] (world st1) = (rc, w2) ->
  Commit World exec_Output utils_RunCmd msg errorIfEmpty st =
  (Done (if (rc >? 0)%Z then Some (Errorf "Unable to commit") else None),
   mkState w2 (calls st1 ++ [RunCmd ["commit"; "-m"; msg]])).
Proof.
  intros Hgs Hn Hrun. unfold Commit, bind. rewrite Hgs.
  destruct (Nat.eqb_spec (CountTracked (Ready gs)) 0) as [H0 | _];
    [contradiction |].
  unfold Do. rewrite Hrun. now destruct (rc >? 0)%Z.
Qed.

(** X7: when the ready record of the status has a tracked entry, [Commit]
    runs [git commit -m msg] right after the status query, whatever
    [errorIfEmpty] is, and answers "Unable to commit" when the exit code is
    positive, nil otherwise. *)
Theorem Commit_runs_commit (msg : string) (errorIfEmpty : bool)
    (st st1 : State World) (gs : Status) (rc : Z) (w2 : World) :
  GetStatus World exec_Output st = (Done gs, st1) ->
  CountTracked (Ready gs) <> 0 ->
  utils_RunCmd ["commit"; "-m"; msg] (world st1) = (rc, w2) ->
  Commit World exec_Output utils_RunCmd msg errorIfEmpty st =
  (Done (if (rc >? 0)%Z then Some (Errorf "Unable to commit") else None),
   mkState w2 (calls st1 ++ [RunCmd ["commit"; "-m"; msg]])).
Proof. exact (Commit_commits msg errorIfEmpty st st1 gs rc w2). Qed.

(** X8: when the status command succeeds, its lines decide what [Commit]
    does.  If one of them stands for a change to a tracked file, staged or
    not, the commit command is run and its exit code decides the answer;
    otherwise no command follows the status query and the answer is the
    error "No files to commit. Please check" or nil, as [errorIfEmpty]
    says. *)
Theorem Commit_decided_by_lines (msg : string) (errorIfEmpty : bool)
    (st : State World) (s : string) (w : World) :
  exec_Output ["status"; "--porcelain"] (world st) = ((s, None), w) ->
  Commit World exec_Output utils_RunCmd msg errorIfEmpty st =
  if existsb tracked_line (Split s NL) then
    let '(rc, w2) := utils_RunCmd ["commit"; "-m"; msg] w in
    (Done (if (rc >? 0)%Z then Some (Errorf "Unable to commit") else None),
     mkState w2 (calls st ++ [Output ["status"; "--porcelain"];
                              RunCmd ["commit"; "-m"; msg]]))
  else
    (Done (if errorIfEmpty
           then Some (Errorf "No files to commit. Please check") else None),
     mkState w (calls st ++ [Output ["status"; "--porcelain"]])).
Proof.
  intros Hout.
  destruct (GetStatus_paths _ _ _ Hout) as (gs & Hgs & Hpaths).
  assert (Hzero : CountTracked (Ready gs) = 0 <->
                  existsb tracked_line (Split s NL) = false).
  { rewrite CountTracked_zero, no_tracked_line.
    split; intros H kind Hk; specialize (H kind Hk);
      [now rewrite <- Hpaths | now rewrite Hpaths]. }
  destruct (existsb tracked_line (Split s NL)).
  - destruct (utils_RunCmd ["commit"; "-m"; msg] w) as [rc w2] eqn:Hrun.
    rewrite (Commit_commits msg errorIfEmpty _ _ _ rc w2 Hgs).
    + cbn [calls]. now rewrite <- app_assoc.
    + intros H0. apply Hzero in H0. discriminate.
    + exact Hrun.
  - unfold Commit, bind. rewrite Hgs.
    now rewrite (proj2 Hzero eq_refl).
Qed.

(** ** [RemoteStatus], as a whole *)

(** X9: [RemoteStatus] never panics, and its two results go together: it
    returns one of the four classifications with a nil error, or the empty
    string with an error. *)
Theorem RemoteStatus_outcome (remote : string) (st : State World) :
  exists code err st',
    RemoteStatus World exec_Output remote st = (Done (code, err), st') /\
    ((err = None /\ code ∈ classifications) \/
     (exists e, err = Some e /\ code = "")).
Proof.
  unfold RemoteStatus, bind, Get.
  destruct (exec_Output ["rev-parse"; "@{0}"] (world st)) as [[l [e1|]] w1];
    cbn [failed world]; [eexists _, _, _; split; [reflexivity | eauto] |].
  destruct (exec_Output ["rev-parse"; remote] w1) as [[r [e2|]] w2];
    cbn [failed world]; [eexists _, _, _; split; [reflexivity | eauto] |].
  destruct (exec_Output ["merge-base"; "@{0}"; remote] w2) as [[b [e3|]] w3];
    cbn [failed world]; [eexists _, _, _; split; [reflexivity | eauto] |].
  eexists _, _, _. split; [reflexivity |]. left. split; [reflexivity |].
  unfold divergence, classifications.
  destruct (String.eqb l r), (String.eqb l b), (String.eqb r b);
    repeat (first [left; reflexivity | right]).
Qed.

(** X10: [RemoteStatus] issues its commands in order and stops at the
    first that fails: only [rev-parse @{0}] when it fails; that and
    [rev-parse remote] when the second fails; all three, ending with
    [merge-base @{0} remote], when the first two succeed.  Each command is
    run in the world the one before left. *)
Theorem RemoteStatus_calls (remote : string) (st : State World) :
  let o1 := exec_Output ["rev-parse"; "@{0}"] (world st) in
  let o2 := exec_Output ["rev-parse"; remote] (snd o1) in
  let o3 := exec_Output ["merge-base"; "@{0}"; remote] (snd o2) in
  snd (RemoteStatus World exec_Output remote st) =
  if failed (snd (fst o1)) then
    mkState (snd o1) (calls st ++ [Output ["rev-parse"; "@{0}"]])
  else if failed (snd (fst o2)) then
    mkState (snd o2) (calls st ++ [Output ["rev-parse"; "@{0}"];
                                   Output ["rev-parse"; remote]])
  else
    mkState (snd o3) (calls st ++ [Output ["rev-parse"; "@{0}"];
                                   Output ["rev-parse"; remote];
                                   Output ["merge-base"; "@{0}"; remote]]).
Proof.
  cbv zeta. unfold RemoteStatus, bind, Get.
  destruct (exec_Output ["rev-parse"; "@{0}"] (world st)) as [[l [e1|]] w1];
    cbn [fst snd failed world calls]; [reflexivity |].
  destruct (exec_Output ["rev-parse"; remote] w1) as [[r [e2|]] w2];
    cbn [fst snd failed world calls]; [now rewrite <- app_assoc |].
  destruct (exec_Output ["merge-base"; "@{0}"; remote] w2) as [[b [e3|]] w3];
    cbn [fst snd failed world calls]; now rewrite <- !app_assoc.
Qed.

End MoreGitFacts.

(** X11: seen from the other side, with local and remote revisions
    exchanged, behind becomes ahead and ahead becomes behind, while equal
    and diverged stay what they are. *)
Theorem divergence_mirrored (local_rev remote_rev base_rev : string) :
  divergence remote_rev local_rev base_rev =
  mirrored (divergence local_rev remote_rev base_rev).
Proof.
  unfold divergence.
  destruct (String.eqb_spec local_rev remote_rev) as [-> | Hlr].
  - now rewrite String.eqb_refl.
  - destruct (String.eqb_spec remote_rev local_rev) as [E | _];
      [now symmetry in E |].
    destruct (String.eqb_spec local_rev base_rev) as [-> | Hlb],
             (String.eqb_spec remote_rev base_rev) as [-> | Hrb];
      try reflexivity.
    contradiction.
Qed.

(** ** Where the matcher cannot go on *)

Lemma star_match_stuck {R : Type} (P : string -> Prop) (p : ascii -> bool)
    (s : string) (k : string -> option R) :
  (forall c s', P (String c s') -> P s') ->
  P s ->
  (forall s1, P s1 -> k s1 = None) ->
  star_match p s k = None.
Proof.
  intros Htail Hs Hk. induction s as [|c s IH]; simpl; [now apply Hk |].
  destruct (p c); [| now apply Hk].
  rewrite IH by now apply (Htail c). now apply Hk.
Qed.

(** The matcher only hands suffixes of its input to its continuation: if
    the continuation fails on every string of a family closed under
    suffixes, so does the match of a string of the family. *)
Lemma rmatch_stuck (P : string -> Prop) (r : regex) (text s : string)
    (cs : captures) (k : string -> captures -> option captures) :
  (forall c s', P (String c s') -> P s') ->
  P s ->
  (forall s1 cs1, P s1 -> k s1 cs1 = None) ->
  rmatch r text s cs k = None.
Proof.
  intros Htail. revert s cs k.
  induction r as [| | |c|p|p|p|r1 IH1 r2 IH2|r1 IH1 r2 IH2|n r1 IH1];
    intros s cs k Hs Hk; cbn [rmatch].
  - now apply Hk.
  - destruct (Nat.eqb _ _); [now apply Hk | reflexivity].
  - destruct s; [now apply Hk | reflexivity].
  - destruct s as [|c' s']; [reflexivity |].
    destruct (Ascii.eqb c' c); [| reflexivity]. apply Hk. now apply (Htail c').
  - destruct s as [|c' s']; [reflexivity |].
    destruct (p c'); [| reflexivity]. apply Hk. now apply (Htail c').
  - apply (star_match_stuck P); auto.
  - destruct s as [|c' s']; [reflexivity |].
    destruct (p c'); [| reflexivity].
    apply (star_match_stuck P); auto. now apply (Htail c').
  - apply IH1; [assumption |]. intros s1 cs1 H1. now apply IH2.
  - rewrite IH1 by assumption. now apply IH2.
  - apply IH1; [assumption |]. intros s1 cs1 H1. now apply Hk.
Qed.

Lemma rmatch_Seq_stuck (P : string -> Prop) (r1 r2 : regex) (text s : string)
    (cs : captures) (k : string -> captures -> option captures) :
  (forall c s', P (String c s') -> P s') ->
  P s ->
  (forall s1 cs1, P s1 -> rmatch r2 text s1 cs1 k = None) ->
  rmatch (Seq r1 r2) text s cs k = None.
Proof. intros Htail Hs Hk. cbn [rmatch]. now apply (rmatch_stuck P). Qed.

Lemma word_not_space (c : ascii) : Ascii.eqb c " " = true -> word c = false.
Proof. intros ->%Ascii.eqb_eq. reflexivity. Qed.

Lemma all_word_tail (c : ascii) (s : string) :
  all_word (String c s) = true -> all_word s = true.
Proof. unfold all_word. simpl. now intros [_ H]%andb_true_iff. Qed.

(** [remMatch] wants a space and a parenthesis after the name: a string of
    word characters is not matched. *)
Lemma remMatch_all_word (l : string) :
  all_word l = true -> FindStringSubmatch remMatch l = [].
Proof.
  intros Hl. unfold FindStringSubmatch, remMatch. cbn [cat foldr].
  rewrite search_anchored.
  assert (Hstuck : forall s cs k, all_word s = true ->
            rmatch (Seq (Lit " (") k) l s cs
              (fun s1 cs1 => Some ((0, consumed l s1) :: cs1)) = None).
  { intros s cs k Hs.
    cbn [rmatch Lit cat foldr map list_ascii_of_string].
    destruct s as [|c s]; [reflexivity |].
    destruct (Ascii.eqb c " ") eqn:Hc; [| reflexivity].
    apply word_not_space in Hc. unfold all_word in Hs. simpl in Hs.
    rewrite Hc in Hs. discriminate. }
  rewrite (rmatch_Seq_stuck (fun s => all_word s = true));
    [reflexivity | exact all_word_tail | assumption |].
  intros s1 cs1 H1.
  apply (rmatch_Seq_stuck (fun s => all_word s = true));
    [exact all_word_tail | assumption |].
  intros s2 cs2 H2.
  apply (rmatch_Seq_stuck (fun s => all_word s = true));
    [exact all_word_tail | assumption |].
  intros s3 cs3 H3.
  apply (rmatch_Seq_stuck (fun s => all_word s = true));
    [exact all_word_tail | assumption |].
  intros s4 cs4 H4. now apply Hstuck.
Qed.

(** ** Branches and remotes *)

(** The loop finds [remote] exactly when it is one of the items. *)
Lemma range_equal_elem (items : list string) (remote : string) :
  range_equal items remote = true <-> remote ∈ items.
Proof.
  induction items as [|item rest IH]; simpl.
  - split; [discriminate | intros H; now apply elem_of_nil in H].
  - rewrite elem_of_cons. destruct (String.eqb_spec item remote) as [-> | Hne].
    + split; auto.
    + rewrite IH. split; [auto | intros [-> | ?]; [contradiction | assumption]].
Qed.

Section ListingFacts.

Variable World : Type.
Variable exec_Output : list string -> World -> (string * error) * World.
Variable utils_RunCmd : list string -> World -> Z * World.

(** X12: [BranchExist] asks for the branch listing once and answers found
    exactly when the listing came without error, is not empty, and has a
    line equal, as a whole, to the name asked for; the error returned is
    the error of the listing. *)
Theorem BranchExist_found (remote : string) (st : State World) (v : string)
    (err : error) (w : World) :
  exec_Output ["branch"] (world st) = ((v, err), w) ->
  exists found,
    BranchExist World exec_Output remote st =
      (Done (found, err), mkState w (calls st ++ [Output ["branch"]])) /\
    (found = true <-> err = None /\ v <> "" /\ remote ∈ Split v NL).
Proof.
  intros Hout. unfold BranchExist, Branches, bind, Get. rewrite Hout.
  destruct err as [e|]; cbn [failed orb].
  - eexists. split; [reflexivity |]. split; [discriminate | now intros [? _]].
  - destruct (String.eqb_spec v "") as [-> | Hne]; cbn [failed].
    + eexists. split; [reflexivity |]. cbn [range_equal].
      split; [discriminate | now intros (_ & ? & _)].
    + eexists. split; [reflexivity |]. rewrite range_equal_elem. tauto.
Qed.

(** X13: [RemoteBranchExist] asks for the listing of the remote branches
    once and answers found exactly when the listing came without error, is
    not empty, and has a line equal, as a whole, to the name asked for;
    the error returned is the error of the listing. *)
Theorem RemoteBranchExist_found (remote : string) (st : State World)
    (v : string) (err : error) (w : World) :
  exec_Output ["branch"; "-r"] (world st) = ((v, err), w) ->
  exists found,
    RemoteBranchExist World exec_Output remote st =
      (Done (found, err), mkState w (calls st ++ [Output ["branch"; "-r"]])) /\
    (found = true <-> err = None /\ v <> "" /\ remote ∈ Split v NL).
Proof.
  intros Hout. unfold RemoteBranchExist, RemoteBranches, bind, Get. rewrite Hout.
  destruct err as [e|]; cbn [failed orb].
  - eexists. split; [reflexivity |]. split; [discriminate | now intros [? _]].
  - destruct (String.eqb_spec v "") as [-> | Hne]; cbn [failed].
    + eexists. split; [reflexivity |]. cbn [range_equal].
      split; [discriminate | now intros (_ & ? & _)].
    + eexists. split; [reflexivity |]. rewrite range_equal_elem. tauto.
Qed.

Lemma RemoteExist_eq (remote : string) (st : State World) (v : string)
    (err : error) (w : World) :
  exec_Output ["remote"] (world st) = ((v, err), w) ->
  exists found,
    RemoteExist World exec_Output remote st =
      (Done found, mkState w (calls st ++ [Output ["remote"]])) /\
    (found = true <-> err = None /\ remote ∈ Split v NL).
Proof.
  intros Hout. unfold RemoteExist, bind, Get. rewrite Hout.
  destruct err as [e|]; cbn [failed].
  - eexists. split; [reflexivity |]. split; [discriminate | now intros [? _]].
  - eexists. split; [reflexivity |]. rewrite range_equal_elem. tauto.
Qed.

(** X14: [RemoteExist] answers true exactly when the listing of the
    remotes came without error and has a line equal to the name asked for;
    a failure of the listing is answered false. *)
Theorem RemoteExist_found (remote : string) (st : State World) (v : string)
    (err : error) (w : World) :
  exec_Output ["remote"] (world st) = ((v, err), w) ->
  exists found,
    RemoteExist World exec_Output remote st =
      (Done found, mkState w (calls st ++ [Output ["remote"]])) /\
    (found = true <-> err = None /\ remote ∈ Split v NL).
Proof. exact (RemoteExist_eq remote st v err w). Qed.

(** X15: the empty name is a remote that exists, whenever the listing of
    the remotes succeeds and is empty or ends with a newline: the text
    after the last newline counts as a line. *)
Theorem RemoteExist_empty_name (st : State World) (v : string) (w : World) :
  exec_Output ["remote"] (world st) = ((v, None), w) ->
  v = "" \/ (exists v', v = endl v') ->
  RemoteExist World exec_Output "" st =
  (Done true, mkState w (calls st ++ [Output ["remote"]])).
Proof.
  intros Hout Hv.
  destruct (RemoteExist_eq "" st v None w Hout) as (found & -> & Hfound).
  f_equal. f_equal. apply Hfound. split; [reflexivity |].
  destruct Hv as [-> | [v' ->]]; [left |].
  unfold endl. rewrite Split_line. apply elem_of_app. right. left.
Qed.

(** ** [RemoteUrl] and [EnsureRemoteIs] *)

(** The loop of [RemoteUrl] runs no command and makes no error. *)
Lemma RemoteUrl_scan_pure (remote : string) (lines : list string)
    (st st' : State World) (res : result (string * bool * error)) :
  RemoteUrl_scan World remote lines st = (res, st') ->
  st' = st /\ forall u found e, res = Done (u, found, e) -> e = None.
Proof.
  induction lines as [|l lines IH].
  - intros [= <- <-]. split; [reflexivity |]. now intros u found e [= _ _ <-].
  - destruct (RemoteUrl_scan_cons World remote l lines st)
      as [[_ ->] | (name & url & dir & _ & ->)].
    + intros [= <- <-]. split; [reflexivity | discriminate].
    + destruct (String.eqb l remote); [| exact IH].
      intros [= <- <-]. split; [reflexivity |]. now intros u found e [= _ _ <-].
Qed.

(** [RemoteUrl] asks for the listing of the remotes and for nothing else. *)
Lemma RemoteUrl_calls (remote : string) (st st' : State World)
    (res : result (string * bool * error)) :
  RemoteUrl World exec_Output remote st = (res, st') ->
  st' = mkState (snd (exec_Output ["remote"; "-v"] (world st)))
                (calls st ++ [Output ["remote"; "-v"]]).
Proof.
  unfold RemoteUrl, bind, Get.
  destruct (exec_Output ["remote"; "-v"] (world st)) as [[v err] w].
  destruct (failed err); [now intros [= _ <-] |].
  intros H. now apply RemoteUrl_scan_pure in H as [-> _].
Qed.

Lemma RemoteUrl_nothing_listed (remote : string) (st : State World)
    (v : string) (err : error) (w : World) :
  exec_Output ["remote"; "-v"] (world st) = ((v, err), w) ->
  err <> None \/ v = "" ->
  RemoteUrl World exec_Output remote st =
  (Done ("", false, err), mkState w (calls st ++ [Output ["remote"; "-v"]])).
Proof.
  intros Hout Hcase. unfold RemoteUrl, bind, Get. rewrite Hout.
  destruct err as [e|]; [reflexivity |].
  destruct Hcase as [Hne | ->]; [contradiction | reflexivity].
Qed.

(** X16: when the listing of the remotes fails or is empty, [RemoteUrl]
    answers not found, with the error of the listing, and does not look
    at any line. *)
Theorem RemoteUrl_no_listing (remote : string) (st : State World) (v : string)
    (err : error) (w : World) :
  exec_Output ["remote"; "-v"] (world st) = ((v, err), w) ->
  err <> None \/ v = "" ->
  RemoteUrl World exec_Output remote st =
  (Done ("", false, err), mkState w (calls st ++ [Output ["remote"; "-v"]])).
Proof. exact (RemoteUrl_nothing_listed remote st v err w). Qed.

Lemma RemoteUrl_hit (remote u : string) (e : error) (st st' : State World) :
  RemoteUrl World exec_Output remote st = (Done (u, true, e), st') ->
  e = None /\
  exists v w url dir,
    exec_Output ["remote"; "-v"] (world st) = ((v, None), w) /\
    remote ∈ Split v NL /\
    FindStringSubmatch remMatch remote = [remote; u; url; dir].
Proof.
  unfold RemoteUrl, bind, Get.
  destruct (exec_Output ["remote"; "-v"] (world st)) as [[v [e1|]] w];
    cbn [failed]; [discriminate |].
  destruct (String.eqb_spec v "") as [-> | _]; [discriminate |].
  intros H.
  pose proof (RemoteUrl_scan_pure _ _ _ _ _ H) as [_ He].
  apply RemoteUrl_scan_found in H as [Hin (url & dir & Hm)].
  split; [now apply (He u true) |]. exists v, w, url, dir. auto.
Qed.

(** X17: when [RemoteUrl] answers found, the listing came without error,
    the request is equal to a whole line of it, and the string returned is
    the name on that line, the first group of the pattern. *)
Theorem RemoteUrl_found (remote u : string) (e : error) (st st' : State World) :
  RemoteUrl World exec_Output remote st = (Done (u, true, e), st') ->
  e = None /\
  exists v w url dir,
    exec_Output ["remote"; "-v"] (world st) = ((v, None), w) /\
    remote ∈ Split v NL /\
    FindStringSubmatch remMatch remote = [remote; u; url; dir].
Proof. exact (RemoteUrl_hit remote u e st st'). Qed.

Lemma RemoteUrl_name_miss (remote u : string) (found : bool) (e : error)
    (st st' : State World) :
  all_word remote = true ->
  RemoteUrl World exec_Output remote st = (Done (u, found, e), st') ->
  found = false.
Proof.
  intros Hw H. destruct found; [| reflexivity].
  apply RemoteUrl_hit in H as (_ & v & w & url & dir & _ & _ & Hm).
  rewrite (remMatch_all_word _ Hw) in Hm. discriminate.
Qed.

(** X18: asked for a name made of word characters, as remote names are,
    [RemoteUrl] never answers found. *)
Theorem RemoteUrl_name_not_found (remote u : string) (found : bool) (e : error)
    (st st' : State World) :
  all_word remote = true ->
  RemoteUrl World exec_Output remote st = (Done (u, found, e), st') ->
  found = false.
Proof. exact (RemoteUrl_name_miss remote u found e st st'). Qed.

(** X19: [EnsureRemoteIs] returns an error only when the listing of the
    remotes failed, and then runs nothing; the exit code of the command it
    runs otherwise is not looked at. *)
Theorem EnsureRemoteIs_error (name url : string) (e : error_value)
    (st st' : State World) :
  EnsureRemoteIs World exec_Output utils_RunCmd name url st
    = (Done (Some e), st') ->
  exists v w,
    exec_Output ["remote"; "-v"] (world st) = ((v, Some e), w) /\
    st' = mkState w (calls st ++ [Output ["remote"; "-v"]]).
Proof.
  unfold EnsureRemoteIs, bind.
  destruct (RemoteUrl World exec_Output name st) as [[[[ru found] err]|p] st1] eqn:Hru;
    [| discriminate].
  destruct err as [e1|]; cbn [failed].
  - intros [= -> <-]. revert Hru. unfold RemoteUrl, bind, Get.
    destruct (exec_Output ["remote"; "-v"] (world st)) as [[v [e2|]] w];
      cbn [failed].
    + intros [= _ _ -> <-]. eauto.
    + intros H. apply RemoteUrl_scan_pure in H as [_ He].
      now specialize (He _ _ _ eq_refl).
  - unfold Do.
    destruct found; [destruct (negb (String.eqb ru url)) |];
      try destruct (utils_RunCmd _ _); discriminate.
Qed.

(** X20: for a name made of word characters, [EnsureRemoteIs] never runs
    [git remote set-url]: it returns the error of the listing, or panics
    on a line of the listing, or runs [git remote add name url] and
    returns nil, also when the remote is listed with this very URL. *)
Theorem EnsureRemoteIs_name (name url : string) (st st' : State World)
    (res : result error) :
  all_word name = true ->
  EnsureRemoteIs World exec_Output utils_RunCmd name url st = (res, st') ->
  (exists e, res = Done (Some e) /\
     calls st' = (calls st ++ [Output ["remote"; "-v"]])%list) \/
  (exists p, res = Panicked p /\
     calls st' = (calls st ++ [Output ["remote"; "-v"]])%list) \/
  (res = Done None /\
   calls st' = (calls st ++ [Output ["remote"; "-v"];
                             RunCmd ["remote"; "add"; name; url]])%list).
Proof.
  intros Hw. unfold EnsureRemoteIs, bind.
  destruct (RemoteUrl World exec_Output name st) as [[[[ru found] err]|p] st1] eqn:Hru.
  - pose proof (RemoteUrl_calls _ _ _ _ Hru) as Hst1.
    destruct err as [e1|]; cbn [failed].
    + intros [= <- <-]. left. exists e1. now rewrite Hst1.
    + rewrite (RemoteUrl_name_miss _ _ _ _ _ _ Hw Hru).
      unfold Do. destruct (utils_RunCmd _ (world st1)) as [rc w2].
      intros [= <- <-]. right. right. split; [reflexivity |].
      rewrite Hst1. cbn [calls]. now rewrite <- app_assoc.
  - pose proof (RemoteUrl_calls _ _ _ _ Hru) as Hst1.
    intros [= <- <-]. right. left. exists p. now rewrite Hst1.
Qed.

(** X21: when no remote is listed, [EnsureRemoteIs] runs
    [git remote add name url] and returns nil whatever the exit code. *)
Theorem EnsureRemoteIs_first_remote (name url : string) (st : State World)
    (w w2 : World) (rc : Z) :
  exec_Output ["remote"; "-v"] (world st) = (("", None), w) ->
  utils_RunCmd ["remote"; "add"; name; url] w = (rc, w2) ->
  EnsureRemoteIs World exec_Output utils_RunCmd name url st =
  (Done None,
   mkState w2 (calls st ++ [Output ["remote"; "-v"];
                            RunCmd ["remote"; "add"; name; url]])).
Proof.
  intros Hout Hrun. unfold EnsureRemoteIs, bind.
  rewrite (RemoteUrl_nothing_listed name st "" None w Hout) by now right.
  cbn [failed]. unfold Do. cbn [world calls]. rewrite Hrun.
  now rewrite <- app_assoc.
Qed.

End ListingFacts.

(** ** Concrete runs of the further facts *)

Lemma ReadyRE_reads_witness :
  FindStringSubmatch ReadyRE "M  src/main.go"
  = ["M  src/main.go"; "M"; "src/main.go"].
Proof. apply (ReadyRE_reads "M  src/main.go"). reflexivity. Defined.

Lemma NotReadyRE_reads_witness :
  FindStringSubmatch NotReadyRE " ? notes.txt"
  = [" ? notes.txt"; "?"; "notes.txt"].
Proof. apply (NotReadyRE_reads " ? notes.txt"). reflexivity. Defined.

Lemma GetStatus_nothing_parsed_witness :
  exists gs,
    GetStatus unit
      (scripted_Output
         (status_world (endl "M  src/main.go")
            (Some (ExecError "exit status 128")))) start
      = (Done gs, mkState tt [Output ["status"; "--porcelain"]]) /\
    Err gs = Some (ExecError "exit status 128") /\
    forall kind, paths (Ready gs) kind = [] /\ paths (NotReady gs) kind = [].
Proof.
  apply (GetStatus_nothing_parsed unit
           (scripted_Output
              (status_world (endl "M  src/main.go")
                 (Some (ExecError "exit status 128"))))
           start (endl "M  src/main.go") (Some (ExecError "exit status 128")) tt).
  - reflexivity.
  - left. discriminate.
Defined.

Lemma GetStatus_ready_paths_witness :
  exists gs,
    GetStatus unit
      (scripted_Output
         (status_world
            (endl "M  src/main.go" +:+ endl " ? notes.txt" +:+ endl "A  README.md")
            None)) start
      = (Done gs, mkState tt [Output ["status"; "--porcelain"]]) /\
    paths (Ready gs) "M" = ["src/main.go"] /\
    paths (Ready gs) "A" = ["README.md"] /\
    paths (Ready gs) "?" = ["notes.txt"] /\
    paths (Ready gs) "D" = [].
Proof.
  destruct (GetStatus_ready_paths unit
              (scripted_Output
                 (status_world
                    (endl "M  src/main.go" +:+ endl " ? notes.txt"
                       +:+ endl "A  README.md") None))
              start
              (endl "M  src/main.go" +:+ endl " ? notes.txt" +:+ endl "A  README.md")
              tt eq_refl) as (gs & Hrun & Hpaths).
  exists gs. split; [exact Hrun |]. rewrite !Hpaths. repeat split.
Defined.

Lemma Commit_runs_commit_witness :
  Commit unit (scripted_Output (status_world (endl "M  src/main.go") None))
    scripted_RunCmd "first commit" true start
  = (Done None,
     mkState tt [Output ["status"; "--porcelain"];
                 RunCmd ["commit"; "-m"; "first commit"]]).
Proof.
  eapply (Commit_runs_commit unit
            (scripted_Output (status_world (endl "M  src/main.go") None))
            scripted_RunCmd "first commit" true start
            (mkState tt [Output ["status"; "--porcelain"]]) _ 0%Z tt).
  - reflexivity.
  - vm_compute. discriminate.
  - reflexivity.
Defined.

Lemma Commit_decided_by_lines_witness :
  Commit unit (scripted_Output (status_world (endl " M src/main.go") None))
    scripted_RunCmd "first commit" true start
  = (Done None,
     mkState tt [Output ["status"; "--porcelain"];
                 RunCmd ["commit"; "-m"; "first commit"]]) /\
  Commit unit (scripted_Output (status_world (endl " ? notes.txt") None))
    scripted_RunCmd "first commit" false start
  = (Done None, mkState tt [Output ["status"; "--porcelain"]]).
Proof.
  split.
  - exact (Commit_decided_by_lines unit
             (scripted_Output (status_world (endl " M src/main.go") None))
             scripted_RunCmd "first commit" true start (endl " M src/main.go")
             tt eq_refl).
  - exact (Commit_decided_by_lines unit
             (scripted_Output (status_world (endl " ? notes.txt") None))
             scripted_RunCmd "first commit" false start (endl " ? notes.txt")
             tt eq_refl).
Defined.

Lemma RemoteStatus_calls_witness :
  snd (RemoteStatus unit
         (scripted_Output
            (revs_world "origin/gone" (endl "4f2a") "" (endl "4f2a")
               None (Some (ExecError "exit status 128")) None))
         "origin/gone" start)
  = mkState tt [Output ["rev-parse"; "@{0}"];
                Output ["rev-parse"; "origin/gone"]].
Proof.
  exact (RemoteStatus_calls unit
           (scripted_Output
              (revs_world "origin/gone" (endl "4f2a") "" (endl "4f2a")
                 None (Some (ExecError "exit status 128")) None))
           "origin/gone" start).
Defined.

Lemma BranchExist_found_witness :
  exists found,
    BranchExist unit
      (scripted_Output [(["branch"], (git_branch_output, None))]) "develop" start
      = (Done (found, None), mkState tt [Output ["branch"]]) /\
    (found = true <->
     @None error_value = None /\ git_branch_output <> "" /\
     "develop" ∈ Split git_branch_output NL).
Proof.
  apply (BranchExist_found unit
           (scripted_Output [(["branch"], (git_branch_output, None))])
           "develop" start git_branch_output None tt).
  reflexivity.
Defined.

Lemma RemoteBranchExist_found_witness :
  exists found,
    RemoteBranchExist unit
      (scripted_Output [(["branch"; "-r"], (endl "  origin/master", None))])
      "  origin/master" start
      = (Done (found, None), mkState tt [Output ["branch"; "-r"]]) /\
    (found = true <->
     @None error_value = None /\ endl "  origin/master" <> "" /\
     "  origin/master" ∈ Split (endl "  origin/master") NL).
Proof.
  apply (RemoteBranchExist_found unit
           (scripted_Output [(["branch"; "-r"], (endl "  origin/master", None))])
           "  origin/master" start (endl "  origin/master") None tt).
  reflexivity.
Defined.

Lemma RemoteExist_found_witness :
  exists found,
    RemoteExist unit
      (scripted_Output [(["remote"], (endl "origin", None))]) "origin" start
      = (Done found, mkState tt [Output ["remote"]]) /\
    (found = true <-> @None error_value = None /\ "origin" ∈ Split (endl "origin") NL).
Proof.
  apply (RemoteExist_found unit
           (scripted_Output [(["remote"], (endl "origin", None))])
           "origin" start (endl "origin") None tt).
  reflexivity.
Defined.

Lemma RemoteExist_empty_name_witness :
  RemoteExist unit (scripted_Output [(["remote"], (endl "origin", None))])
    "" start
  = (Done true, mkState tt [Output ["remote"]]).
Proof.
  apply (RemoteExist_empty_name unit
           (scripted_Output [(["remote"], (endl "origin", None))])
           start (endl "origin") tt).
  - reflexivity.
  - right. exists "origin". reflexivity.
Defined.

Lemma RemoteUrl_no_listing_witness :
  RemoteUrl unit (scripted_Output (remotes_world "")) "origin" start
  = (Done ("", false, None), mkState tt [Output ["remote"; "-v"]]).
Proof.
  apply (RemoteUrl_no_listing unit (scripted_Output (remotes_world ""))
           "origin" start "" None tt).
  - reflexivity.
  - right. reflexivity.
Defined.

Lemma RemoteUrl_found_witness :
  @None error_value = None /\
  exists v w url dir,
    scripted_Output (remotes_world origin_fetch) ["remote"; "-v"] tt
      = ((v, None), w) /\
    origin_fetch ∈ Split v NL /\
    FindStringSubmatch remMatch origin_fetch = [origin_fetch; "origin"; url; dir].
Proof.
  apply (RemoteUrl_found unit (scripted_Output (remotes_world origin_fetch))
           origin_fetch "origin" None start
           (mkState tt [Output ["remote"; "-v"]])).
  reflexivity.
Defined.

Lemma RemoteUrl_name_not_found_witness :
  all_word "origin" = true /\
  RemoteUrl unit (scripted_Output (remotes_world origin_fetch)) "origin" start
    = (Done ("", false, None), mkState tt [Output ["remote"; "-v"]]) /\
  false = false.
Proof.
  split; [reflexivity |]. split; [reflexivity |].
  apply (RemoteUrl_name_not_found unit
           (scripted_Output (remotes_world origin_fetch))
           "origin" "" false None start
           (mkState tt [Output ["remote"; "-v"]])).
  - reflexivity.
  - reflexivity.
Defined.

Lemma EnsureRemoteIs_error_witness :
  exists v w,
    scripted_Output [] ["remote"; "-v"] tt
      = ((v, Some (ExecError "exit status 1")), w) /\
    mkState tt [Output ["remote"; "-v"]]
      = mkState w ([] ++ [Output ["remote"; "-v"]]).
Proof.
  apply (EnsureRemoteIs_error unit (scripted_Output []) scripted_RunCmd
           "origin" "https://example.org/repo.git" (ExecError "exit status 1")
           start (mkState tt [Output ["remote"; "-v"]])).
  reflexivity.
Defined.

Lemma EnsureRemoteIs_name_witness :
  (exists e, @Done error None = Done (Some e) /\
     [Output ["remote"; "-v"];
      RunCmd ["remote"; "add"; "origin"; "https://example.org/repo.git"]]
     = ([] ++ [Output ["remote"; "-v"]])%list) \/
  (exists p, @Done error None = Panicked p /\
     [Output ["remote"; "-v"];
      RunCmd ["remote"; "add"; "origin"; "https://example.org/repo.git"]]
     = ([] ++ [Output ["remote"; "-v"]])%list) \/
  (@Done error None = Done None /\
   [Output ["remote"; "-v"];
    RunCmd ["remote"; "add"; "origin"; "https://example.org/repo.git"]]
   = ([] ++ [Output ["remote"; "-v"];
             RunCmd ["remote"; "add"; "origin";
                     "https://example.org/repo.git"]])%list).
Proof.
  apply (EnsureRemoteIs_name unit
           (scripted_Output (remotes_world origin_fetch)) scripted_RunCmd
           "origin" "https://example.org/repo.git" start
           (mkState tt
              [Output ["remote"; "-v"];
               RunCmd ["remote"; "add"; "origin";
                       "https://example.org/repo.git"]])
           (Done None)).
  - reflexivity.
  - reflexivity.
Defined.

Lemma EnsureRemoteIs_first_remote_witness :
  EnsureRemoteIs unit (scripted_Output (remotes_world "")) scripted_RunCmd
    "origin" "https://example.org/repo.git" start
  = (Done None,
     mkState tt [Output ["remote"; "-v"];
                 RunCmd ["remote"; "add"; "origin";
                         "https://example.org/repo.git"]]).
Proof.
  apply (EnsureRemoteIs_first_remote unit
           (scripted_Output (remotes_world "")) scripted_RunCmd
           "origin" "https://example.org/repo.git" start tt tt 0%Z).
  - reflexivity.
  - reflexivity.
Defined.
